(** * The umico.az clothes scraper (scripts/clothes.py)

    A shallow embedding of the scraper: the values that [json.loads] hands to
    the script, the record transformer [parse_product], the retrying page
    fetcher [fetch_page], the page-count resolver [get_total_pages] and the
    orchestrator [main] with its pool of concurrent page tasks.

    Coroutines are modelled as finite trees of effects (semaphore acquire and
    release, HTTP request, sleep, log line); a sequential interpreter runs one
    coroutine against a list of responses, and a small-step relation
    interleaves the tasks of [asyncio.as_completed] under the semaphore. *)

From Stdlib Require Import ZArith List String Ascii Bool Floats QArith Qround.
From Stdlib Require Import Permutation Lia Wellfounded.
Import ListNotations.

#[local] Set Warnings "-register-all".
#[local] Open Scope string_scope.
#[local] Open Scope list_scope.
#[local] Open Scope Z_scope.

(** ** Configuration (lines 18-25 and 63 of clothes.py) *)

Definition BASE_URL : string := "https://mp-catalog.umico.az/api/v1/products".
Definition CATEGORY_ID : Z := 3003.
Definition PER_PAGE : Z := 24.
Definition SORT : string := "global_popular_score".
Definition CONCURRENCY : Z := 20.
Definition RETRY_LIMIT : Z := 3.
Definition RETRY_DELAY : Z := 2.

Definition CSV_FIELDS : list string :=
  [ "id"; "name"; "brand"; "category_id"; "category_name"; "status";
    "retail_price"; "old_price"; "discount_pct"; "seller_name";
    "seller_rating"; "rating_value"; "review_count"; "in_stock";
    "installment_enabled"; "max_installment_months"; "image_url";
    "product_url" ].

Definition PRODUCT_BASE_URL : string := "https://birmarket.az/products".

(** ** Python values

    What [json.loads] produces: [None], [bool], [int] (unbounded), [float]
    (IEEE binary64, here the kernel's primitive floats), [str], [list] and
    [dict].  A dict keeps its insertion order, which is what iterating over
    it yields, so it is an association list; lookup takes the first binding
    of a key. *)

Inductive pyval : Type :=
| PNone
| PBool (b : bool)
| PInt (z : Z)
| PFloat (f : float)
| PStr (s : string)
| PList (l : list pyval)
| PDict (d : list (string * pyval)).

(** The exceptions the script can meet; all of them derive from Python's
    [Exception], so [except Exception] catches every one. *)

Inductive exn : Type :=
| AttributeError
| TypeError
| KeyError
| ZeroDivisionError
| OverflowError
| ClientError        (* aiohttp: connection refused, reset, DNS, ... *)
| TimeoutError       (* the 30 second ClientTimeout elapsed *)
| JSONDecodeError    (* the body is not JSON *)
| OSError            (* file system *)
| UnicodeEncodeError. (* a str that UTF-8 cannot encode: a lone surrogate *)

(** A computation that returns or raises. *)

Inductive res (A : Type) : Type :=
| Ok (a : A)
| Raise (e : exn).

Arguments Ok {A} a.
Arguments Raise {A} e.

Definition res_bind {A B : Type} (m : res A) (k : A -> res B) : res B :=
  match m with
  | Ok a => k a
  | Raise e => Raise e
  end.

Declare Scope res_scope.
Delimit Scope res_scope with res.
Notation "x <- m ;; k" := (res_bind m (fun x => k))
  (at level 61, m at next level, right associativity) : res_scope.

Fixpoint res_map {A B : Type} (f : A -> res B) (l : list A) : res (list B) :=
  match l with
  | [] => Ok []
  | x :: l' =>
      (y <- f x ;; ys <- res_map f l' ;; Ok (y :: ys))%res
  end.

(** ** Dictionaries, truthiness, [or] *)

Fixpoint lookup (d : list (string * pyval)) (k : string) : option pyval :=
  match d with
  | [] => None
  | (k', v) :: d' => if String.eqb k k' then Some v else lookup d' k
  end.

(** [d.get(k, default)] on a dict. *)
Definition dict_get (d : list (string * pyval)) (k : string) (default : pyval) : pyval :=
  match lookup d k with
  | Some v => v
  | None => default
  end.

(** [v.get(k, default)] on any value: only a dict has the method. *)
Definition py_get (v : pyval) (k : string) (default : pyval) : res pyval :=
  match v with
  | PDict d => Ok (dict_get d k default)
  | _ => Raise AttributeError
  end.

(** [v[k]] for a string key. *)
Definition py_getitem (v : pyval) (k : string) : res pyval :=
  match v with
  | PDict d =>
      match lookup d k with
      | Some x => Ok x
      | None => Raise KeyError
      end
  | _ => Raise TypeError
  end.

(** [bool(v)]. *)
Definition truthy (v : pyval) : bool :=
  match v with
  | PNone => false
  | PBool b => b
  | PInt z => negb (z =? 0)
  | PFloat f => negb (PrimFloat.eqb f 0%float)
  | PStr s => negb (String.eqb s "")
  | PList l => match l with [] => false | _ => true end
  | PDict d => match d with [] => false | _ => true end
  end.

(** [a or b]. *)
Definition py_or (a b : pyval) : pyval := if truthy a then a else b.

(** A [str] is modelled by its UTF-8 bytes.  Iterating over it yields its
    characters: a new one starts at every byte that is not a continuation
    byte (10xxxxxx). *)

Definition continuation_byte (c : ascii) : bool :=
  let n := Z.of_N (N_of_ascii c) in (128 <=? n) && (n <? 192).

Fixpoint utf8_chars (s : string) (cur : option string) : list string :=
  match s with
  | EmptyString => match cur with Some c => [c] | None => [] end
  | String b s' =>
      match cur with
      | None => utf8_chars s' (Some (String b EmptyString))
      | Some c =>
          if continuation_byte b
          then utf8_chars s' (Some (c ++ String b EmptyString)%string)
          else c :: utf8_chars s' (Some (String b EmptyString))
      end
  end.

(** [iter(v)]: the items a comprehension draws from [v]; a dict yields its
    keys, a str its characters, and the scalars are not iterable. *)
Definition py_iter (v : pyval) : res (list pyval) :=
  match v with
  | PList l => Ok l
  | PDict d => Ok (map (fun kv => PStr (fst kv)) d)
  | PStr s => Ok (map PStr (utf8_chars s None))
  | _ => Raise TypeError
  end.

(** ** Numbers

    [bool] is a subclass of [int]; an int meets a float either by exact
    comparison or by conversion to the nearest float. *)

Inductive num : Type :=
| NInt (z : Z)
| NFloat (f : float).

Definition as_num (v : pyval) : option num :=
  match v with
  | PBool b => Some (NInt (Z.b2z b))
  | PInt z => Some (NInt z)
  | PFloat f => Some (NFloat f)
  | _ => None
  end.

Definition is_finite (f : float) : bool :=
  match Prim2SF f with
  | S754_zero _ | S754_finite _ _ _ => true
  | _ => false
  end.

(** [float(z)]: the nearest float, ties to even; too large an int raises. *)
Definition float_of_int (z : Z) : res float :=
  let f := SF2Prim (binary_normalize prec emax z 0 false) in
  if is_finite f then Ok f else Raise OverflowError.

(** [a / b] on two ints, [b] non-zero: the quotient correctly rounded, with
    the sign of a zero result taken from the operands. *)
Definition int_truediv (a b : Z) : res float :=
  let s := xorb (a <? 0) (b <? 0) in
  if a =? 0 then Ok (SF2Prim (S754_zero s))
  else
    let '(mz, ez, lz) := SFdiv_core_binary prec emax (Z.abs a) 0 (Z.abs b) 0 in
    let f := SF2Prim (binary_round_aux prec emax s mz ez lz) in
    if is_finite f then Ok f else Raise OverflowError.

(** [a / b]: true division, always a float. *)
Definition py_truediv (a b : pyval) : res float :=
  match as_num a, as_num b with
  | Some (NInt x), Some (NInt y) =>
      if y =? 0 then Raise ZeroDivisionError else int_truediv x y
  | Some x, Some y =>
      (fx <- match x with NInt z => float_of_int z | NFloat f => Ok f end ;;
       fy <- match y with NInt z => float_of_int z | NFloat f => Ok f end ;;
       if PrimFloat.eqb fy 0%float then Raise ZeroDivisionError
       else Ok (PrimFloat.div fx fy))%res
  | _, _ => Raise TypeError
  end.

(** An int against a float, compared exactly; [None] against a NaN. *)
Definition Zcompare_float (z : Z) (f : float) : option comparison :=
  match Prim2SF f with
  | S754_nan => None
  | S754_infinity s => Some (if s then Gt else Lt)
  | S754_zero _ => Some (z ?= 0)
  | S754_finite s m e =>
      let v := if s then Z.neg m else Z.pos m in
      Some (if 0 <=? e then z ?= v * 2 ^ e else z * 2 ^ (- e) ?= v)
  end.

(** [x > y] on numbers. *)
Definition num_gt (x y : num) : bool :=
  match x, y with
  | NInt a, NInt b => b <? a
  | NFloat a, NFloat b => PrimFloat.ltb b a
  | NInt a, NFloat b =>
      match Zcompare_float a b with Some Gt => true | _ => false end
  | NFloat a, NInt b =>
      match Zcompare_float b a with Some Lt => true | _ => false end
  end.

(** [n / d] rounded to the nearest integer, ties to the even one
    ([0 <= n], [0 < d]). *)
Definition div_half_even (n d : Z) : Z :=
  let q := n / d in
  let r := n mod d in
  match 2 * r ?= d with
  | Lt => q
  | Gt => q + 1
  | Eq => if Z.even q then q else q + 1
  end.

(** [round(x, 1)] on a float: the exact value of [x] is rounded to one
    decimal, ties to even, and that decimal is converted back to the nearest
    float; infinities and NaN round to themselves. *)
Definition round1 (x : float) : float :=
  match Prim2SF x with
  | S754_finite s m e =>
      let q := if 0 <=? e then Z.pos m * 2 ^ e * 10
               else div_half_even (Z.pos m * 10) (2 ^ (- e)) in
      if q =? 0 then SF2Prim (S754_zero s)
      else
        let '(mz, ez, lz) := SFdiv_core_binary prec emax q 0 10 0 in
        SF2Prim (binary_round_aux prec emax s mz ez lz)
  | _ => x
  end.

(** ** Builtins left open

    Three builtins reach the script only on inputs that no property below
    concerns, and their results are taken as they come: the text that an
    f-string puts for a value that is not a str, floor division of floats (a
    page count computed from a float total), and the ordering of two lists (a
    price that is a list). *)

Class Builtins : Type := {
  py_format : pyval -> string;
  float_floordiv : float -> float -> float;
  list_gt : list pyval -> list pyval -> res bool
}.

Section Script.

Context {builtins : Builtins}.

(** [a > b]: numbers by value, strings by code point, lists by the list
    ordering; any other pair of types is not ordered. *)
Definition py_gt (a b : pyval) : res bool :=
  match as_num a, as_num b with
  | Some x, Some y => Ok (num_gt x y)
  | _, _ =>
      match a, b with
      | PStr s, PStr t => Ok (String.ltb t s)
      | PList l, PList m => list_gt l m
      | _, _ => Raise TypeError
      end
  end.

(** What [f"{v}"] puts for [v]. *)
Definition py_fstr (v : pyval) : string :=
  match v with
  | PStr s => s
  | _ => py_format v
  end.

(** ** parse_product (lines 68-102)

    The returned dict is the list of its eighteen items, in the order in
    which the dict display lists them. *)

Definition row : Type := list (string * pyval).

(** Lines 78-81: the discount of a retail price against an old price. *)
Definition discount (retail_price old_price : pyval) : res float :=
  if truthy retail_price && truthy old_price then
    (above <- py_gt old_price retail_price ;;
     if (above : bool) then
       (ratio <- py_truediv retail_price old_price ;;
        Ok (round1 (PrimFloat.mul (PrimFloat.sub 1 ratio) 100)))
     else Ok 0%float)%res
  else Ok 0%float.

Definition parse_product (p : pyval) : res row :=
  (default_offer <- py_get p "default_offer" PNone ;;
   let offer := py_or default_offer (PDict []) in
   seller_field <- py_get offer "seller" PNone ;;
   let seller := py_or seller_field (PDict []) in
   marketing_name <- py_get seller "marketing_name" PNone ;;
   let seller_name_obj := py_or marketing_name (PDict []) in
   ratings_field <- py_get p "ratings" PNone ;;
   let ratings := py_or ratings_field (PDict []) in
   category_field <- py_get p "category" PNone ;;
   let category := py_or category_field (PDict []) in
   main_img_field <- py_get p "main_img" PNone ;;
   let main_img := py_or main_img_field (PDict []) in
   retail_price <- py_get offer "retail_price" PNone ;;
   old_price <- py_get offer "old_price" PNone ;;
   discount_pct <- discount retail_price old_price ;;
   id <- py_get p "id" PNone ;;
   name <- py_get p "name" PNone ;;
   brand <- py_get p "brand" PNone ;;
   category_id <- py_get p "category_id" PNone ;;
   category_name <- py_get category "name" (PStr "") ;;
   status <- py_get p "status" PNone ;;
   seller_name <- py_get seller_name_obj "name" (PStr "") ;;
   seller_rating <- py_get seller "rating" PNone ;;
   rating_value <- py_get ratings "rating_value" PNone ;;
   review_count <- py_get ratings "session_count" PNone ;;
   in_stock <- py_get offer "avail_check" (PBool false) ;;
   installment_enabled <- py_get offer "installment_enabled" (PBool false) ;;
   max_installment_months <- py_get offer "max_installment_months" PNone ;;
   image_url <- py_get main_img "medium" (PStr "") ;;
   slugged_name <- py_get p "slugged_name" (PStr "") ;;
   Ok [ ("id", id);
        ("name", name);
        ("brand", py_or brand (PStr ""));
        ("category_id", category_id);
        ("category_name", category_name);
        ("status", status);
        ("retail_price", retail_price);
        ("old_price", old_price);
        ("discount_pct", PFloat discount_pct);
        ("seller_name", seller_name);
        ("seller_rating", seller_rating);
        ("rating_value", rating_value);
        ("review_count", review_count);
        ("in_stock", in_stock);
        ("installment_enabled", installment_enabled);
        ("max_installment_months", max_installment_months);
        ("image_url", image_url);
        ("product_url",
         PStr (PRODUCT_BASE_URL ++ "/" ++ py_fstr slugged_name)%string) ])%res.

End Script.

(** ** Coroutines as trees of effects

    The effects of the script's coroutines: entering and leaving
    [async with semaphore], one HTTP request, [asyncio.sleep] and [print]. *)

Inductive log : Type :=
| LogHttp (page status attempt : Z)                         (* line 125 *)
| LogError (page : Z) (e : exn) (attempt : Z)               (* line 127 *)
| LogGiveUp (page : Z)                                      (* line 132 *)
| LogTotal (total pages : pyval)                            (* line 149 *)
| LogProgress (done total_pages : Z) (products : nat)       (* line 175 *)
| LogWriting (products : nat)                               (* line 177 *)
| LogDone.                                                  (* line 184 *)

(** What one [session.get] brings: either it raises (connection error, or
    the 30 second timeout), or the response arrives with a status, and
    [body] is what awaiting [resp.json(content_type=None)] on it gives, the
    parsed value or the exception of the read or of the decoder. *)

Inductive response : Type :=
| NetFail (e : exn)
| Resp (status : Z) (body : res pyval).

Inductive prog (A : Type) : Type :=
| Ret (a : A)
| Acquire (k : prog A)
| Release (k : prog A)
| Get (page : Z) (k : response -> prog A)
| Sleep (seconds : Z) (k : prog A)
| Say (l : log) (k : prog A).

Arguments Ret {A} a.
Arguments Acquire {A} k.
Arguments Release {A} k.
Arguments Get {A} page k.
Arguments Sleep {A} seconds k.
Arguments Say {A} l k.

Fixpoint bind {A B : Type} (p : prog A) (f : A -> prog B) : prog B :=
  match p with
  | Ret a => f a
  | Acquire k => Acquire (bind k f)
  | Release k => Release (bind k f)
  | Get page k => Get page (fun r => bind (k r) f)
  | Sleep d k => Sleep d (bind k f)
  | Say l k => Say l (bind k f)
  end.

Declare Scope prog_scope.
Delimit Scope prog_scope with prog.
Notation "x <- m ;; k" := (bind m (fun x => k))
  (at level 61, m at next level, right associativity) : prog_scope.

(** How a block of statements ends: it falls through to the next statement,
    it returns from the function, or it raises. *)

Inductive flow (A : Type) : Type :=
| Next
| Return (a : A)
| Throw (e : exn).

Arguments Next {A}.
Arguments Return {A} a.
Arguments Throw {A} e.

(** [first; second]. *)
Definition and_then {A : Type} (first second : prog (flow A)) : prog (flow A) :=
  (f <- first ;;
   match f with
   | Next => second
   | _ => Ret f
   end)%prog.

(** [try: body / except Exception as e: handler e]. *)
Definition try_except {A : Type} (body : prog (flow A))
    (handler : exn -> prog (flow A)) : prog (flow A) :=
  (f <- body ;;
   match f with
   | Throw e => handler e
   | _ => Ret f
   end)%prog.

(** [async with semaphore: body]: the permit is given back however the body
    ends. *)
Definition async_with_semaphore {A : Type} (body : prog (flow A)) : prog (flow A) :=
  Acquire (f <- body ;; Release (Ret f))%prog.

(** [for x in xs: body x]. *)
Fixpoint for_each {A : Type} (xs : list Z) (body : Z -> prog (flow A)) : prog (flow A) :=
  match xs with
  | [] => Ret Next
  | x :: xs' => and_then (body x) (for_each xs' body)
  end.

(** [range(a, b)]. *)
Definition py_range (a b : Z) : list Z :=
  map (fun i => a + Z.of_nat i) (seq 0 (Z.to_nat (b - a))).

(** The value of a function whose body ended with [f]. *)
Definition returned {A : Type} (f : flow A) (default : A) : res A :=
  match f with
  | Next => Ok default
  | Return a => Ok a
  | Throw e => Raise e
  end.

Section Coroutines.

Context {builtins : Builtins}.

(** Line 124: [[parse_product(p) for p in data.get("products", [])]]. *)
Definition page_rows (data : pyval) : res (list row) :=
  (products <- py_get data "products" (PList []) ;;
   items <- py_iter products ;;
   res_map parse_product items)%res.

(** Lines 119-125, the body of the [try]. *)
Definition request (page attempt : Z) : prog (flow (list row)) :=
  Get page (fun r =>
    match r with
    | NetFail e => Ret (Throw e)
    | Resp status body =>
        if status =? 200 then
          match (data <- body ;; page_rows data)%res with
          | Ok rows => Ret (Return rows)
          | Raise e => Ret (Throw e)
          end
        else Say (LogHttp page status attempt) (Ret Next)
    end).

(** Lines 117-130, the body of the [for]. *)
Definition attempt_once (page attempt : Z) : prog (flow (list row)) :=
  and_then
    (async_with_semaphore
       (try_except (request page attempt)
          (fun e => Say (LogError page e attempt) (Ret Next))))
    (if attempt <? RETRY_LIMIT then Sleep RETRY_DELAY (Ret Next) else Ret Next).

(** ** fetch_page (lines 105-133) *)
Definition fetch_page (page : Z) : prog (res (list row)) :=
  (f <- for_each (py_range 1 (RETRY_LIMIT + 1)) (attempt_once page) ;;
   match f with
   | Next => Say (LogGiveUp page) (Ret (Ok []))
   | _ => Ret (returned f [])
   end)%prog.

(** Line 148, [(total + PER_PAGE - 1) // PER_PAGE], on ints. *)
Definition pages_for (total per_page : Z) : Z := (total + per_page - 1) / per_page.

(** Line 148 on the value read from the body. *)
Definition page_count (total : pyval) : res pyval :=
  match as_num total with
  | Some (NInt t) => Ok (PInt (pages_for t PER_PAGE))
  | Some (NFloat f) =>
      Ok (PFloat (float_floordiv (PrimFloat.sub (PrimFloat.add f 24) 1) 24))
  | None => Raise TypeError
  end.

(** ** get_total_pages (lines 136-150): one request, no status check, no
    [try]. *)
Definition get_total_pages : prog (res pyval) :=
  Get 1 (fun r =>
    match r with
    | NetFail e => Ret (Raise e)
    | Resp _ body =>
        match (data <- body ;;
               meta <- py_getitem data "meta" ;;
               total <- py_getitem meta "total" ;;
               pages <- page_count total ;;
               Ok (total, pages))%res with
        | Ok (total, pages) => Say (LogTotal total pages) (Ret (Ok pages))
        | Raise e => Ret (Raise e)
        end
    end).

End Coroutines.

(** ** Running one coroutine alone

    The events of a run, in order, against the responses the network gives to
    its requests; [None] when the responses run out. *)

Inductive event : Type :=
| EvAcquire
| EvRelease
| EvGet (page : Z) (r : response)
| EvSleep (seconds : Z)
| EvSay (l : log).

Fixpoint exec {A : Type} (p : prog A) (net : list response)
  : option (list event * A * list response) :=
  match p with
  | Ret a => Some ([], a, net)
  | Acquire k =>
      match exec k net with
      | Some (tr, a, rest) => Some (EvAcquire :: tr, a, rest)
      | None => None
      end
  | Release k =>
      match exec k net with
      | Some (tr, a, rest) => Some (EvRelease :: tr, a, rest)
      | None => None
      end
  | Get page k =>
      match net with
      | [] => None
      | r :: net' =>
          match exec (k r) net' with
          | Some (tr, a, rest) => Some (EvGet page r :: tr, a, rest)
          | None => None
          end
      end
  | Sleep d k =>
      match exec k net with
      | Some (tr, a, rest) => Some (EvSleep d :: tr, a, rest)
      | None => None
      end
  | Say l k =>
      match exec k net with
      | Some (tr, a, rest) => Some (EvSay l :: tr, a, rest)
      | None => None
      end
  end.

(** ** The pool of page tasks (lines 155 and 162-175)

    [asyncio.as_completed] starts every coroutine of [tasks] as a task of the
    event loop.  A task of the pool is a coroutine part-way through: the
    code it still has to run, the permits it has acquired and not released,
    and whether the loop of [main] has taken its result yet. *)

Record task : Type := mkTask {
  t_page : Z;
  t_code : prog (res (list row));
  t_held : Z;
  t_taken : bool
}.

Record pool : Type := mkPool {
  tasks : list task;
  permits : Z;                (* the semaphore's counter *)
  rows : list row;            (* line 167 *)
  done : Z;                   (* line 168 *)
  out : list log;             (* what has been printed *)
  failure : option exn        (* an exception that reached [main] *)
}.

Definition set_task (i : nat) (t : task) (ts : list task) : list task :=
  firstn i ts ++ t :: skipn (S i) ts.

(** Lines 173-175. *)
Definition progress (total_pages done' : Z) (rows' : list row) (o : list log) : list log :=
  if (done' mod 100 =? 0) || (done' =? total_pages)
  then o ++ [LogProgress done' total_pages (List.length rows')]
  else o.

(** One step of the event loop: task [i] runs up to its next effect, or, when
    it has finished, the loop of [main] takes its result (lines 169-175).
    [r] is what the network answers if the effect is a request.  A task
    waits at [Acquire] while the semaphore has no permit; nothing runs once
    an exception has reached [main]. *)
Definition pool_step (total_pages : Z) (i : nat) (r : response) (s : pool) : option pool :=
  match failure s, nth_error (tasks s) i with
  | None, Some t =>
      let move code held :=
        set_task i (mkTask (t_page t) code held (t_taken t)) (tasks s) in
      match t_code t with
      | Acquire k =>
          if 0 <? permits s
          then Some (mkPool (move k (t_held t + 1)) (permits s - 1)
                       (rows s) (done s) (out s) None)
          else None
      | Release k =>
          Some (mkPool (move k (t_held t - 1)) (permits s + 1)
                  (rows s) (done s) (out s) None)
      | Get _ k =>
          Some (mkPool (move (k r) (t_held t)) (permits s)
                  (rows s) (done s) (out s) None)
      | Sleep _ k =>
          Some (mkPool (move k (t_held t)) (permits s)
                  (rows s) (done s) (out s) None)
      | Say l k =>
          Some (mkPool (move k (t_held t)) (permits s)
                  (rows s) (done s) (out s ++ [l]) None)
      | Ret result =>
          if t_taken t then None
          else
            let taken :=
              set_task i (mkTask (t_page t) (t_code t) (t_held t) true) (tasks s) in
            match result with
            | Ok page_rows =>
                let rows' := rows s ++ page_rows in
                let done' := done s + 1 in
                Some (mkPool taken (permits s) rows' done'
                        (progress total_pages done' rows' (out s)) None)
            | Raise e =>
                Some (mkPool taken (permits s) (rows s) (done s) (out s) (Some e))
            end
      end
  | _, _ => None
  end.

Definition step (total_pages : Z) (s s' : pool) : Prop :=
  exists i r, pool_step total_pages i r s = Some s'.

Inductive steps (total_pages : Z) : pool -> pool -> Prop :=
| steps_refl s : steps total_pages s s
| steps_next s s' s'' :
    step total_pages s s' -> steps total_pages s' s'' -> steps total_pages s s''.

(** The loop of line 169 is over when every result has been taken. *)
Definition finished (s : pool) : bool := forallb t_taken (tasks s).

(** What a task gave to [main]. *)
Definition task_rows (t : task) : list row :=
  match t_code t with
  | Ret (Ok page_rows) => page_rows
  | _ => []
  end.

(** The tasks that are inside a request, and the permits in hand. *)
Definition requesting (t : task) : bool :=
  match t_code t with
  | Get _ _ => true
  | _ => false
  end.

Definition sleeping (t : task) : bool :=
  match t_code t with
  | Sleep _ _ => true
  | _ => false
  end.

Definition in_flight (s : pool) : Z := Z.of_nat (List.length (filter requesting (tasks s))).

Definition permits_held (ts : list task) : Z := fold_right Z.add 0 (map t_held ts).

Definition held (s : pool) : Z := permits_held (tasks s).

Section Main.

Context {builtins : Builtins}.

(** Lines 162-168: one task per page, a fresh semaphore, nothing gathered. *)
Definition spawn (total_pages : Z) : pool :=
  mkPool (map (fun page => mkTask page (fetch_page page) 0 false)
            (py_range 1 (total_pages + 1)))
    CONCURRENCY [] 0 [] None.

(** Lines 154-165 of [main], up to the list of tasks: the directory is made
    ([mkdir_result] is what the file system answers), the page count is
    resolved, and [range(1, total_pages + 1)] wants an int. *)
Definition main_start (mkdir_result : res unit) : prog (res Z) :=
  match mkdir_result with
  | Raise e => Ret (Raise e)
  | Ok _ =>
      (r <- get_total_pages ;;
       match r with
       | Raise e => Ret (Raise e)
       | Ok total_pages =>
           match as_num total_pages with
           | Some (NInt n) => Ret (Ok n)
           | _ => Ret (Raise TypeError)
           end
       end)%prog
  end.

(** Lines 177-184: the rows go to the CSV file.  [csv_result] is what
    opening the file and writing the header and the rows (lines 178-181)
    gives for the rows handed to them: it depends on the file system (the
    file may not open, the disk may fill up: [OSError]) and on the rows
    themselves (a str among their values that UTF-8 cannot encode raises
    [UnicodeEncodeError]). *)
Definition main_finish (csv_result : list row -> res unit) (collected : list row)
  : res (list row) :=
  match csv_result collected with
  | Ok _ => Ok collected
  | Raise e => Raise e
  end.

(** What surrounds a run: the file system, the answer to the page-count
    request, and what writing a given list of rows to the CSV file gives. *)
Record world : Type := mkWorld {
  mkdir_result : res unit;
  page_count_response : response;
  csv_result : list row -> res unit
}.

Inductive outcome : Type :=
| AbortedBeforeFetching (e : exn)
| AbortedWhileFetching (e : exn)
| AbortedWriting (e : exn)
| Completed (written : list row).

(** ** main (lines 153-184) under [asyncio.run] (line 188) *)
Inductive main : world -> outcome -> Prop :=
| main_stops_early w tr e rest :
    exec (main_start (mkdir_result w)) [page_count_response w] = Some (tr, Raise e, rest) ->
    main w (AbortedBeforeFetching e)
| main_stops_fetching w tr n rest s e :
    exec (main_start (mkdir_result w)) [page_count_response w] = Some (tr, Ok n, rest) ->
    steps n (spawn n) s ->
    failure s = Some e ->
    main w (AbortedWhileFetching e)
| main_completes w tr n rest s :
    exec (main_start (mkdir_result w)) [page_count_response w] = Some (tr, Ok n, rest) ->
    steps n (spawn n) s ->
    failure s = None ->
    finished s = true ->
    main w (match main_finish (csv_result w) (rows s) with
            | Ok written => Completed written
            | Raise e => AbortedWriting e
            end).

(** The status the process exits with: an exception that leaves
    [asyncio.run] ends the interpreter with status 1. *)
Definition exit_status (o : outcome) : Z :=
  match o with
  | Completed _ => 0
  | _ => 1
  end.

End Main.

(** * The vocabulary of the properties

    What the statements below are written with: the specification's reading
    of the discount, the classification of a response, the beats of a trace,
    the permit discipline, and the invariants of the pool. *)

Section Vocabulary.

Context {builtins : Builtins}.

(** The discount as the specification words it: the rounded percentage
    whenever old > retail, and 0.0 otherwise, a missing price included. *)
Definition claimed_discount (retail old : pyval) : res float :=
  match retail, old with
  | PNone, _ | _, PNone => Ok 0%float
  | _, _ =>
      (above <- py_gt old retail ;;
       if (above : bool) then
         (ratio <- py_truediv retail old ;;
          Ok (round1 (PrimFloat.mul (PrimFloat.sub 1 ratio) 100)))
       else Ok 0%float)%res
  end.

(** The offer a raw record carries, as line 69 reads it. *)
Definition offer_of (d : list (string * pyval)) : pyval :=
  py_or (dict_get d "default_offer" PNone) (PDict []).

(** A nested field that is absent or null. *)
Definition absent_or_null (d : list (string * pyval)) (k : string) : Prop :=
  lookup d k = None \/ lookup d k = Some PNone.

(** The requests and the sleeps of a run, in order, and their number. *)
Inductive beat : Type :=
| Request
| Pause (seconds : Z).

Fixpoint rhythm (tr : list event) : list beat :=
  match tr with
  | [] => []
  | EvGet _ _ :: tr' => Request :: rhythm tr'
  | EvSleep d :: tr' => Pause d :: rhythm tr'
  | _ :: tr' => rhythm tr'
  end.

Definition requests (tr : list event) : nat :=
  List.length (filter (fun b => match b with Request => true | _ => false end) (rhythm tr)).

(** What the script makes of one response.  It counts as a success when the
    status is 200, the body parses, and line 124 builds the rows; every other
    response is a failed attempt, logged with the line shown. *)
Inductive succeeds : response -> list row -> Prop :=
| succeeds_intro data page_rows' :
    page_rows data = Ok page_rows' ->
    succeeds (Resp 200 (Ok data)) page_rows'.

Inductive fails (page attempt : Z) : response -> log -> Prop :=
| fails_transport e :
    fails page attempt (NetFail e) (LogError page e attempt)
| fails_status status body :
    status <> 200 ->
    fails page attempt (Resp status body) (LogHttp page status attempt)
| fails_body e :
    fails page attempt (Resp 200 (Raise e)) (LogError page e attempt)
| fails_shape data e :
    page_rows data = Raise e ->
    fails page attempt (Resp 200 (Ok data)) (LogError page e attempt).

Definition failed (r : response) : Prop := forall got, ~ succeeds r got.

(** The pause that follows a failed attempt (lines 129-130). *)
Definition pause_after (attempt : Z) : list event :=
  if attempt <? RETRY_LIMIT then [EvSleep RETRY_DELAY] else [].

(** The beats of a failed attempt: its request, and the pause before the
    next attempt if there is one. *)
Definition beats_of_failure (attempt : Z) : list beat :=
  Request :: rhythm (pause_after attempt).

(** Where a coroutine stands with respect to the semaphore: without a
    permit, with a permit and its request still to make, or with a permit
    and its request made. *)
Inductive phase : Type :=
| Idle
| Ready
| Called.

Definition in_hand (q : phase) : Z :=
  match q with
  | Idle => 0
  | Ready | Called => 1
  end.

(** [safe q n p Q]: started in phase [q], the code [p] acquires only without
    a permit, requests only right after acquiring, releases only after the
    request with nothing but log lines in between, sleeps only without a
    permit and for [RETRY_DELAY]; it ends within [n] effects, and [Q] holds
    of the phase and the value it ends with. *)
Fixpoint safe {A : Type} (q : phase) (n : nat) (p : prog A)
    (Q : phase -> A -> Prop) {struct p} : Prop :=
  match p with
  | Ret a => Q q a
  | Acquire k =>
      q = Idle /\ match n with S n' => safe Ready n' k Q | O => False end
  | Release k =>
      q = Called /\ match n with S n' => safe Idle n' k Q | O => False end
  | Get _ k =>
      q = Ready /\ match n with S n' => forall r, safe Called n' (k r) Q | O => False end
  | Sleep d k =>
      q = Idle /\ d = RETRY_DELAY
      /\ match n with S n' => safe Idle n' k Q | O => False end
  | Say _ k =>
      q <> Ready /\ match n with S n' => safe q n' k Q | O => False end
  end.

(** The same discipline read off a trace: the phase after [tr], if [tr]
    keeps to it. *)
Fixpoint track (q : phase) (tr : list event) : option phase :=
  match tr with
  | [] => Some q
  | EvAcquire :: tr' => match q with Idle => track Ready tr' | _ => None end
  | EvGet _ _ :: tr' => match q with Ready => track Called tr' | _ => None end
  | EvRelease :: tr' => match q with Called => track Idle tr' | _ => None end
  | EvSleep d :: tr' =>
      match q with
      | Idle => if d =? RETRY_DELAY then track Idle tr' else None
      | _ => None
      end
  | EvSay _ :: tr' => match q with Ready => None | _ => track q tr' end
  end.

(** The permits acquired and not yet released along a trace. *)
Fixpoint permits_in_hand (tr : list event) : Z :=
  match tr with
  | [] => 0
  | EvAcquire :: tr' => permits_in_hand tr' + 1
  | EvRelease :: tr' => permits_in_hand tr' - 1
  | _ :: tr' => permits_in_hand tr'
  end.

Definition is_say (e : event) : Prop :=
  match e with
  | EvSay _ => True
  | _ => False
  end.

(** A block that ends without an exception in flight. *)
Definition calm {A : Type} (f : flow A) : Prop :=
  match f with
  | Throw _ => False
  | _ => True
  end.

(** What a page task owes: it ends without a permit, with rows and not with
    an exception. *)
Definition page_task_ends (q : phase) (result : res (list row)) : Prop :=
  q = Idle /\ exists got, result = Ok got.

(** What running one effect makes of a task's code: the code that remains,
    the change in the permits the task holds, and what it prints. *)
Definition effect_of {A : Type} (r : response) (c : prog A)
  : option (prog A * Z * list log) :=
  match c with
  | Ret _ => None
  | Acquire k => Some (k, 1, [])
  | Release k => Some (k, -1, [])
  | Get _ k => Some (k r, 0, [])
  | Sleep _ k => Some (k, 0, [])
  | Say l k => Some (k, 0, [l])
  end.

(** A task keeps to the discipline from the phase in which it stands, and the
    permits it holds are those of that phase. *)
Definition task_ok (t : task) : Prop :=
  exists q n, safe q n (t_code t) page_task_ends /\ t_held t = in_hand q.

Definition sound (s : pool) : Prop :=
  Forall task_ok (tasks s)
  /\ permits s + held s = CONCURRENCY
  /\ 0 <= permits s
  /\ failure s = None.

(** The rows of a task once [main] has taken them. *)
Definition taken_rows (t : task) : list row :=
  if t_taken t then task_rows t else [].

(** A run without its trace: the value and the responses left. *)
Definition outcome_of {A : Type} (x : option (list event * A * list response))
  : option (A * list response) :=
  match x with
  | Some (_, a, rest) => Some (a, rest)
  | None => None
  end.

(** The response an effect consumes. *)
Definition consumed {A : Type} (r : response) (c : prog A) : list response :=
  match c with
  | Get _ _ => [r]
  | _ => []
  end.

(** The code a task still has to run is what is left of [fetch_page] for its
    page after the responses the task has seen. *)
Definition traced (t : task) : Prop :=
  exists seen,
    forall net,
      outcome_of (exec (fetch_page (t_page t)) (seen ++ net))
      = outcome_of (exec (t_code t) net).

Definition gathering (n : Z) (s : pool) : Prop :=
  map t_page (tasks s) = py_range 1 (n + 1)
  /\ Forall traced (tasks s)
  /\ Forall (fun t => t_taken t = true -> exists result, t_code t = Ret result) (tasks s)
  /\ done s = Z.of_nat (List.length (filter t_taken (tasks s)))
  /\ Permutation (rows s) (List.concat (map taken_rows (tasks s))).




End Vocabulary.

(** ** More vocabulary

    What the further properties are written with: what a run prints and how
    long it sleeps, the nested fields [parse_product] can read, the header of
    the CSV file, the page a task minds, the progress lines, and the order in
    which [main] lays the rows out. *)

(** The lines a run prints, in order, and the seconds it sleeps. *)
Fixpoint printed (tr : list event) : list log :=
  match tr with
  | [] => []
  | EvSay l :: tr' => l :: printed tr'
  | _ :: tr' => printed tr'
  end.

Definition slept (tr : list event) : Z :=
  fold_right (fun b total => match b with Pause d => d + total | Request => total end)
    0 (rhythm tr).

(** A nested field that [parse_product] can read: a falsy value, which
    [or {}] replaces by the empty dict, or a dict. *)
Definition usable (v : pyval) : bool :=
  negb (truthy v) || match v with PDict _ => true | _ => false end.

(** The dict that [v or {}] then is. *)
Definition nested (v : pyval) : list (string * pyval) :=
  match py_or v (PDict []) with
  | PDict d => d
  | _ => []
  end.

(** Lines 69-71: the offer and its seller can be read. *)
Definition offer_readable (d : list (string * pyval)) : bool :=
  let offer := dict_get d "default_offer" PNone in
  usable offer && usable (dict_get (nested offer) "seller" PNone).

(** Lines 88-100: the seller's name, the ratings, the category and the
    image can be read. *)
Definition fields_readable (d : list (string * pyval)) : bool :=
  let offer := dict_get d "default_offer" PNone in
  let seller := dict_get (nested offer) "seller" PNone in
  usable (dict_get (nested seller) "marketing_name" PNone)
  && usable (dict_get d "ratings" PNone)
  && usable (dict_get d "category" PNone)
  && usable (dict_get d "main_img" PNone).

(** The keys of a row are those of the CSV header, in its order. *)
Definition fits_header (r : row) : Prop := map fst r = CSV_FIELDS.

(** A line of [fetch_page] about the given page. *)
Definition page_line (page : Z) (l : log) : Prop :=
  match l with
  | LogHttp p _ _ | LogError p _ _ | LogGiveUp p => p = page
  | _ => False
  end.

(** [minds page p]: the code [p] requests no page but [page] and prints
    nothing but lines about it. *)
Fixpoint minds {A : Type} (page : Z) (p : prog A) : Prop :=
  match p with
  | Ret _ => True
  | Acquire k | Release k | Sleep _ k => minds page k
  | Get page' k => page' = page /\ forall r, minds page (k r)
  | Say l k => page_line page l /\ minds page k
  end.

(** The same read off a trace. *)
Definition minding (page : Z) (e : event) : Prop :=
  match e with
  | EvGet page' _ => page' = page
  | EvSay l => page_line page l
  | _ => True
  end.

(** The progress lines among what has been printed: pages done, pages in
    all, products so far. *)
Fixpoint progress_lines (o : list log) : list (Z * Z * nat) :=
  match o with
  | [] => []
  | LogProgress done' total_pages products :: o' =>
      (done', total_pages, products) :: progress_lines o'
  | _ :: o' => progress_lines o'
  end.

(** Line 173: the counts of pages done at which a progress line is due. *)
Definition due (total_pages done' : Z) : bool :=
  (done' mod 100 =? 0) || (done' =? total_pages).

(** The progress lines are those due so far, and the last of them, if it is
    due now, tells the rows gathered. *)
Definition reported (n : Z) (s : pool) : Prop :=
  map (fun line => fst (fst line)) (progress_lines (out s))
  = filter (due n) (py_range 1 (done s + 1))
  /\ Forall (fun line => snd (fst line) = n) (progress_lines (out s))
  /\ (due n (done s) = true -> 1 <= done s ->
      exists earlier,
        progress_lines (out s) = earlier ++ [(done s, n, List.length (rows s))]).

(** A nested field that is absent, null, or the dict it is meant to be. *)
Definition absent_null_or_dict (d : list (string * pyval)) (k : string) : Prop :=
  absent_or_null d k \/ exists x, lookup d k = Some (PDict x).

(** [rows] is the lists that the tasks taken so far gave, laid end to end in
    the order [taken_order] in which [main] took them. *)
Definition laid_out (s : pool) (taken_order : list task) : Prop :=
  Permutation taken_order (filter t_taken (tasks s))
  /\ rows s = List.concat (map task_rows taken_order).

(** To evaluate the model on given inputs the three open builtins must be
    fixed.  No result stated below depends on what they give: no value other
    than a str is formatted, no price is a list, and the one float total
    ([float_shop]) ends in the [TypeError] of [range] whatever the floor
    division gives.  So each is a constant. *)
Definition unused_builtins : Builtins :=
  {| py_format := fun _ => "";
     float_floordiv := fun x _ => x;
     list_gt := fun _ _ => Raise TypeError |}.

(** A schedule names, step by step, the task that runs and what the network
    answers if it makes a request. *)
Fixpoint run_schedule (n : Z) (schedule : list (nat * response)) (s : pool)
  : option pool :=
  match schedule with
  | [] => Some s
  | (i, r) :: schedule' =>
      match pool_step n i r s with
      | Some s' => run_schedule n schedule' s'
      | None => None
      end
  end.

(** Raw records and responses used below. *)
Definition shirt : pyval :=
  PDict [("id", PInt 7); ("name", PStr "shirt");
         ("default_offer", PDict [("retail_price", PInt 80); ("old_price", PInt 100)])].

(** The row of [shirt]: 80 against 100 is a discount of 20.0. *)
Definition shirt_row : row :=
  [ ("id", PInt 7); ("name", PStr "shirt"); ("brand", PStr "");
    ("category_id", PNone); ("category_name", PStr ""); ("status", PNone);
    ("retail_price", PInt 80); ("old_price", PInt 100);
    ("discount_pct", PFloat 20); ("seller_name", PStr "");
    ("seller_rating", PNone); ("rating_value", PNone); ("review_count", PNone);
    ("in_stock", PBool false); ("installment_enabled", PBool false);
    ("max_installment_months", PNone); ("image_url", PStr "");
    ("product_url", PStr "https://birmarket.az/products/") ].

Definition dearer_shirt : pyval :=
  PDict [("default_offer", PDict [("retail_price", PInt 100); ("old_price", PInt 80)])].

Definition free_shirt : pyval :=
  PDict [("default_offer", PDict [("retail_price", PInt 0); ("old_price", PInt 100)])].

Definition bare_record : list (string * pyval) :=
  [("id", PInt 1); ("default_offer", PNone); ("category", PNone)].

(** An offer that is there with a null seller, and a seller that is there
    with a null name. *)
Definition sellerless_record : list (string * pyval) :=
  [("id", PInt 2);
   ("default_offer",
    PDict [("seller", PNone); ("retail_price", PInt 80); ("old_price", PInt 100)]);
   ("ratings", PNone)].

Definition nameless_record : list (string * pyval) :=
  [("id", PInt 3);
   ("default_offer",
    PDict [("seller", PDict [("marketing_name", PNone); ("rating", PInt 5)])])].

Definition one_shirt_page : response :=
  Resp 200 (Ok (PDict [("products", PList [shirt])])).

Definition null_products_page : response :=
  Resp 200 (Ok (PDict [("products", PNone)])).

Definition catalogue_size : response :=
  Resp 200 (Ok (PDict [("meta", PDict [("total", PInt 62633)])])).

Definition read_only_disk : world :=
  mkWorld (Raise OSError) catalogue_size (fun _ => Ok tt).

(** Two pages, after the first task has acquired a permit: its request is
    in flight. *)
Definition one_in_flight : pool :=
  match run_schedule 2 [(0%nat, NetFail ClientError)] (@spawn unused_builtins 2) with
  | Some s => s
  | None => @spawn unused_builtins 2
  end.

(** A page whose second product is not a record. *)
Definition spoiled_page : list (string * pyval) :=
  [("products", PList [shirt; PInt 3])].

(** Worlds in which the disk works: a catalogue of one product, an empty
    one, and one whose total is a float. *)
Definition catalogue_of (total : pyval) : response :=
  Resp 200 (Ok (PDict [("meta", PDict [("total", total)])])).

Definition shirt_shop : world :=
  mkWorld (Ok tt) (catalogue_of (PInt 1)) (fun _ => Ok tt).

Definition empty_shop : world :=
  mkWorld (Ok tt) (catalogue_of (PInt 0)) (fun _ => Ok tt).

Definition float_shop : world :=
  mkWorld (Ok tt) (catalogue_of (PFloat 62633)) (fun _ => Ok tt).

(** One page, fetched at the first attempt and gathered by [main]. *)
Definition shirt_gathered : pool :=
  match run_schedule 1
          [(0%nat, one_shirt_page); (0%nat, one_shirt_page);
           (0%nat, one_shirt_page); (0%nat, one_shirt_page)]
          (@spawn unused_builtins 1) with
  | Some s => s
  | None => @spawn unused_builtins 1
  end.

(** * Properties *)

Section Properties.

Context {builtins : Builtins}.

(** ** The page count *)

Lemma pages_for_opp (total page_size : Z) :
  0 < page_size -> pages_for total page_size = - ((- total) / page_size).
Proof.
  intros Hp. unfold pages_for.
  pose proof (Z.div_mod (- total) page_size ltac:(lia)) as Hdm.
  pose proof (Z.mod_pos_bound (- total) page_size Hp) as Hr.
  symmetry.
  apply Z.div_unique with (r := page_size - 1 - (- total) mod page_size); lia.
Qed.

Lemma Qceiling_ratio (total page_size : Z) :
  0 < page_size ->
  Qceiling (inject_Z total / inject_Z page_size) = - ((- total) / page_size).
Proof.
  intros Hp.
  assert (Heq : (inject_Z total / inject_Z page_size == total # Z.to_pos page_size)%Q).
  { unfold Qeq, Qdiv, Qmult, Qinv, inject_Z. simpl.
    destruct page_size as [|q|q]; try lia. simpl. lia. }
  rewrite (Qceiling_comp _ _ Heq).
  unfold Qceiling, Qfloor, Qopp. simpl.
  rewrite Z2Pos.id by lia. reflexivity.
Qed.

(** [get_total_pages] on an answer whose body carries an int total. *)
Lemma get_total_pages_int (status total : Z) (d m : list (string * pyval)) :
  lookup d "meta" = Some (PDict m) ->
  lookup m "total" = Some (PInt total) ->
  exec get_total_pages [Resp status (Ok (PDict d))]
  = Some ([EvGet 1 (Resp status (Ok (PDict d)));
           EvSay (LogTotal (PInt total) (PInt (pages_for total PER_PAGE)))],
          Ok (PInt (pages_for total PER_PAGE)), []).
Proof.
  intros Hd Hm. simpl. rewrite Hd. simpl. rewrite Hm. reflexivity.
Qed.

(** C6: for a total of at least zero and a positive page size, the
    computation of line 148 is the ceiling of total / page size;
    [get_total_pages] returns that ceiling for [PER_PAGE] whatever the status
    of the answer; and 62633 items in pages of 24 make 2610 pages. *)
Theorem page_count_is_ceiling (total page_size : Z) :
  0 <= total -> 0 < page_size ->
  pages_for total page_size = Qceiling (inject_Z total / inject_Z page_size)
  /\ (forall status d m,
        lookup d "meta" = Some (PDict m) ->
        lookup m "total" = Some (PInt total) ->
        exists tr,
          exec get_total_pages [Resp status (Ok (PDict d))]
          = Some (tr, Ok (PInt (Qceiling (inject_Z total / inject_Z PER_PAGE))), []))
  /\ pages_for 62633 24 = 2610.
Proof.
  intros _ Hp. split; [|split].
  - rewrite Qceiling_ratio by assumption. now apply pages_for_opp.
  - intros status d m Hd Hm.
    rewrite (get_total_pages_int status total d m Hd Hm).
    rewrite Qceiling_ratio by reflexivity.
    rewrite <- pages_for_opp by reflexivity.
    eexists. reflexivity.
  - reflexivity.
Qed.

(** ** The record transformer *)

Lemma res_bind_Ok {A B : Type} (m : res A) (k : A -> res B) (b : B) :
  res_bind m k = Ok b -> exists a, m = Ok a /\ k a = Ok b.
Proof.
  destruct m as [a|e]; simpl; intros H; [eauto | discriminate].
Qed.

(** [res_map] succeeds exactly when [f] does on every item, and gives the
    results in the order of the items. *)
Lemma res_map_Forall2 {A B : Type} (f : A -> res B) (l : list A) (ys : list B) :
  res_map f l = Ok ys <-> Forall2 (fun x y => f x = Ok y) l ys.
Proof.
  revert ys. induction l as [|x l IH]; intros ys; simpl.
  - split; [intros [= <-]; constructor|intros H; inversion H; reflexivity].
  - split.
    + intros H. apply res_bind_Ok in H as (y & Hy & H).
      apply res_bind_Ok in H as (ys' & Hys & [= <-]).
      constructor; [exact Hy|now apply IH].
    + intros H. inversion H as [|x' y l' ys' Hy Hrest]; subst.
      rewrite Hy. simpl. apply IH in Hrest. rewrite Hrest. reflexivity.
Qed.

(** The three ways [discount] ends without raising. *)
Lemma discount_cases (retail old : pyval) (pct : float) :
  discount retail old = Ok pct ->
  (truthy retail = true /\ truthy old = true /\ py_gt old retail = Ok true
   /\ exists ratio, py_truediv retail old = Ok ratio
        /\ pct = round1 (PrimFloat.mul (PrimFloat.sub 1 ratio) 100))
  \/ (truthy retail = true /\ truthy old = true /\ py_gt old retail = Ok false
      /\ pct = 0%float)
  \/ ((truthy retail = false \/ truthy old = false) /\ pct = 0%float).
Proof.
  unfold discount.
  destruct (truthy retail) eqn:Hr; destruct (truthy old) eqn:Ho; simpl;
    try (intros [= <-]; right; right; split; [auto | reflexivity]).
  intros H. apply res_bind_Ok in H as [above [Hgt H]].
  destruct above.
  - apply res_bind_Ok in H as [ratio [Hdiv [= <-]]].
    left. repeat split; trivial. exists ratio. split; trivial.
  - injection H as <-. right; left. repeat split; trivial.
Qed.

(** What [parse_product] returns on a dict, when it returns. *)
Lemma parse_product_Ok (d : list (string * pyval)) (r : row) :
  parse_product (PDict d) = Ok r ->
  exists retail old pct,
    py_get (offer_of d) "retail_price" PNone = Ok retail
    /\ py_get (offer_of d) "old_price" PNone = Ok old
    /\ discount retail old = Ok pct
    /\ map fst r = CSV_FIELDS
    /\ lookup r "retail_price" = Some retail
    /\ lookup r "old_price" = Some old
    /\ lookup r "discount_pct" = Some (PFloat pct).
Proof.
  unfold parse_product. cbn [py_get res_bind]. fold (offer_of d).
  intros H.
  repeat (apply res_bind_Ok in H; destruct H as [? [? H]]).
  injection H as <-.
  repeat match goal with
         | E : Ok _ = Ok _ |- _ => injection E as <-
         end.
  do 3 eexists. repeat split; eassumption || reflexivity.
Qed.

(** C7, amended: on every raw record that [parse_product] transforms, the
    discount is [round((1 - retail/old) * 100, 1)] when the retail and the
    old price are both present and non-zero (truthy) and old > retail, and
    0.0 in every other case: old <= retail, or a price that is missing, null
    or zero. *)
Theorem discount_pct_is_guarded (d : list (string * pyval)) (r : row) :
  parse_product (PDict d) = Ok r ->
  exists retail old pct,
    py_get (offer_of d) "retail_price" PNone = Ok retail
    /\ py_get (offer_of d) "old_price" PNone = Ok old
    /\ lookup r "discount_pct" = Some (PFloat pct)
    /\ ((truthy retail = true /\ truthy old = true /\ py_gt old retail = Ok true
         /\ exists ratio, py_truediv retail old = Ok ratio
              /\ pct = round1 (PrimFloat.mul (PrimFloat.sub 1 ratio) 100))
        \/ (truthy retail = true /\ truthy old = true
            /\ py_gt old retail = Ok false /\ pct = 0%float)
        \/ ((truthy retail = false \/ truthy old = false) /\ pct = 0%float)).
Proof.
  intros H.
  destruct (parse_product_Ok d r H)
    as (retail & old & pct & Hr & Ho & Hd & _ & _ & _ & Hp).
  exists retail, old, pct. repeat split; trivial.
  now apply discount_cases.
Qed.

Lemma absent_or_null_get (d : list (string * pyval)) (k : string) :
  absent_or_null d k -> dict_get d k PNone = PNone.
Proof.
  unfold dict_get. intros [-> | ->]; reflexivity.
Qed.

(** What [x.get(k, default)] gives when [x] is [v or {}]. *)
Lemma py_get_or (v : pyval) (k : string) (default : pyval) :
  py_get (py_or v (PDict [])) k default
  = if usable v then Ok (dict_get (nested v) k default) else Raise AttributeError.
Proof.
  unfold usable, nested, py_or.
  destruct v as [|b|z|f|s|l|d]; simpl; try reflexivity.
  - destruct b; reflexivity.
  - destruct (z =? 0); reflexivity.
  - destruct (PrimFloat.eqb f 0); reflexivity.
  - destruct (String.eqb s ""); reflexivity.
  - destruct l; reflexivity.
  - destruct d; reflexivity.
Qed.

Lemma absent_null_or_dict_usable (d : list (string * pyval)) (k : string) :
  absent_null_or_dict d k -> usable (dict_get d k PNone) = true.
Proof.
  intros [Ha|[x Hx]].
  - now rewrite (absent_or_null_get d k Ha).
  - unfold dict_get. rewrite Hx. unfold usable. apply orb_true_r.
Qed.

(** C10: a record in which each of the nested fields [default_offer],
    [seller] (in the offer), [marketing_name] (in the seller), [ratings],
    [category] and [main_img] is absent, null, or the dict it is meant to be,
    is transformed without an exception unless the discount of the offer's
    prices raises, which it does not when the offer is absent or null.  The
    row has exactly the keys of [CSV_FIELDS], and every value drawn from a
    field that is absent or null is its falsy default; with no
    [slugged_name] the product URL ends with an empty slug. *)
Theorem parse_product_tolerates_missing (d : list (string * pyval)) :
  let offer := nested (dict_get d "default_offer" PNone) in
  let seller := nested (dict_get offer "seller" PNone) in
  let retail_price := dict_get offer "retail_price" PNone in
  let old_price := dict_get offer "old_price" PNone in
  absent_null_or_dict d "default_offer" ->
  absent_null_or_dict offer "seller" ->
  absent_null_or_dict seller "marketing_name" ->
  absent_null_or_dict d "ratings" ->
  absent_null_or_dict d "category" ->
  absent_null_or_dict d "main_img" ->
  (absent_or_null d "default_offer" -> discount retail_price old_price = Ok 0%float)
  /\ (forall e,
        parse_product (PDict d) = Raise e -> discount retail_price old_price = Raise e)
  /\ (forall pct,
        discount retail_price old_price = Ok pct ->
        exists r,
          parse_product (PDict d) = Ok r
          /\ map fst r = CSV_FIELDS
          /\ List.length r = 18%nat
          /\ lookup r "discount_pct" = Some (PFloat pct)
          /\ (absent_or_null d "default_offer" ->
              lookup r "retail_price" = Some PNone
              /\ lookup r "old_price" = Some PNone
              /\ lookup r "discount_pct" = Some (PFloat 0)
              /\ lookup r "in_stock" = Some (PBool false)
              /\ lookup r "installment_enabled" = Some (PBool false)
              /\ lookup r "max_installment_months" = Some PNone
              /\ lookup r "seller_rating" = Some PNone
              /\ lookup r "seller_name" = Some (PStr ""))
          /\ (absent_or_null offer "seller" ->
              lookup r "seller_rating" = Some PNone
              /\ lookup r "seller_name" = Some (PStr ""))
          /\ (absent_or_null seller "marketing_name" ->
              lookup r "seller_name" = Some (PStr ""))
          /\ (absent_or_null d "ratings" ->
              lookup r "rating_value" = Some PNone
              /\ lookup r "review_count" = Some PNone)
          /\ (absent_or_null d "category" -> lookup r "category_name" = Some (PStr ""))
          /\ (absent_or_null d "main_img" -> lookup r "image_url" = Some (PStr ""))
          /\ (lookup d "brand" = None -> lookup r "brand" = Some (PStr ""))
          /\ (lookup d "slugged_name" = None ->
              lookup r "product_url" = Some (PStr "https://birmarket.az/products/"))).
Proof.
  cbv zeta. intros Ho Hs Hn Hr Hc Hm.
  apply absent_null_or_dict_usable in Ho, Hs, Hn, Hr, Hc, Hm.
  assert (Hnone : forall d' k,
             absent_or_null d' k -> nested (dict_get d' k PNone) = []).
  { intros d' k Ha. now rewrite (absent_or_null_get d' k Ha). }
  unfold parse_product. cbn [py_get res_bind].
  rewrite !py_get_or, Ho. cbn [res_bind].
  rewrite !py_get_or, Hs. cbn [res_bind].
  rewrite !py_get_or, Hr, Hc, Hm, Hn. cbn [res_bind].
  split; [|split].
  - intros Ha. rewrite (Hnone _ _ Ha). reflexivity.
  - intros e.
    destruct (discount _ _) as [pct|e0]; cbn [res_bind];
      [discriminate|intros [= ->]; reflexivity].
  - intros pct Hd. rewrite Hd. cbn [res_bind].
    eexists. split; [reflexivity|].
    split; [reflexivity|]. split; [reflexivity|]. split; [reflexivity|].
    split.
    { intros Ha. rewrite (Hnone _ _ Ha) in *. injection Hd as <-.
      repeat split. }
    split; [intros Ha; cbn; rewrite (Hnone _ _ Ha); split; reflexivity|].
    split; [intros Ha; cbn; rewrite (Hnone _ _ Ha); reflexivity|].
    split; [intros Ha; cbn; rewrite (Hnone _ _ Ha); split; reflexivity|].
    split; [intros Ha; cbn; rewrite (Hnone _ _ Ha); reflexivity|].
    split; [intros Ha; cbn; rewrite (Hnone _ _ Ha); reflexivity|].
    split; cbn; unfold dict_get; intros ->; reflexivity.
Qed.

(** ** One coroutine alone: sequencing *)

(** Case analysis on the runs that a goal scrutinises. *)
Ltac split_runs :=
  repeat match goal with
         | |- context [match exec ?p ?net with Some _ => _ | None => _ end] =>
             destruct (exec p net) as [[[? ?] ?]|]
         end;
  try reflexivity.

Lemma exec_bind {A B : Type} (p : prog A) (f : A -> prog B) (net : list response) :
  exec (bind p f) net =
  match exec p net with
  | Some (tr, a, rest) =>
      match exec (f a) rest with
      | Some (tr', b, rest') => Some (tr ++ tr', b, rest')
      | None => None
      end
  | None => None
  end.
Proof.
  revert net.
  induction p as [a|k IH|k IH|page k IH|d k IH|l k IH]; intros net; simpl;
    try rewrite IH; try solve [split_runs].
  destruct net as [|r net]; [reflexivity|]. rewrite IH. split_runs.
Qed.

Lemma rhythm_app (tr tr' : list event) : rhythm (tr ++ tr') = rhythm tr ++ rhythm tr'.
Proof.
  induction tr as [|[| |page r|d|l] tr IH]; simpl; rewrite ?IH; reflexivity.
Qed.

Lemma requests_app (tr tr' : list event) :
  requests (tr ++ tr') = (requests tr + requests tr')%nat.
Proof.
  unfold requests. rewrite rhythm_app, filter_app, length_app. reflexivity.
Qed.

Lemma succeeds_or_fails (page attempt : Z) (r : response) :
  (exists got, succeeds r got) \/ (exists l, fails page attempt r l).
Proof.
  destruct r as [e|status [data|e]].
  - right. eexists. constructor.
  - destruct (Z.eq_dec status 200) as [->|Hne].
    + destruct (page_rows data) as [got|e] eqn:Hrows.
      * left. exists got. now constructor.
      * right. eexists. now apply fails_shape with (e := e).
    + right. eexists. now constructor.
  - destruct (Z.eq_dec status 200) as [->|Hne].
    + right. eexists. apply fails_body.
    + right. eexists. now constructor.
Qed.

Lemma fails_not_succeeds (page attempt : Z) (r : response) (l : log) :
  fails page attempt r l -> failed r.
Proof.
  intros Hf got Hs. destruct Hs as [data got Hrows].
  inversion Hf; subst; try congruence.
Qed.

Lemma failed_fails (page attempt : Z) (r : response) :
  failed r -> exists l, fails page attempt r l.
Proof.
  intros Hf. destruct (succeeds_or_fails page attempt r) as [[got Hs]|Hl]; trivial.
  now destruct (Hf got).
Qed.

Lemma attempt_once_success (page attempt : Z) (r : response) (got : list row)
    (net : list response) :
  succeeds r got ->
  exec (attempt_once page attempt) (r :: net)
  = Some ([EvAcquire; EvGet page r; EvRelease], Return got, net).
Proof.
  intros [data got' Hrows]. unfold attempt_once, and_then. simpl. rewrite Hrows. reflexivity.
Qed.

Lemma attempt_once_failure (page attempt : Z) (r : response) (l : log)
    (net : list response) :
  fails page attempt r l ->
  exec (attempt_once page attempt) (r :: net)
  = Some ([EvAcquire; EvGet page r; EvSay l; EvRelease] ++ pause_after attempt,
          Next, net).
Proof.
  intros Hf. unfold attempt_once, and_then, pause_after.
  destruct Hf as [e|status body Hne|e|data e Hrows]; simpl.
  - destruct (attempt <? RETRY_LIMIT); reflexivity.
  - apply Z.eqb_neq in Hne. rewrite Hne. simpl.
    destruct (attempt <? RETRY_LIMIT); reflexivity.
  - destruct (attempt <? RETRY_LIMIT); reflexivity.
  - rewrite Hrows. simpl. destruct (attempt <? RETRY_LIMIT); reflexivity.
Qed.

(** ** The retry loop *)

(** Attempts that all fail: the loop falls through, one request each. *)
Lemma for_each_all_fail (page : Z) (xs : list Z) :
  forall rs extra,
    List.length rs = List.length xs ->
    Forall failed rs ->
    exists tr,
      exec (for_each xs (attempt_once page)) (rs ++ extra) = Some (tr, Next, extra)
      /\ rhythm tr = flat_map beats_of_failure xs
      /\ requests tr = List.length xs.
Proof.
  induction xs as [|x xs IH]; intros rs extra Hlen Hall.
  - destruct rs; [|discriminate]. exists []. repeat split.
  - destruct rs as [|r rs]; [discriminate|].
    injection Hlen as Hlen. inversion Hall as [|? ? Hr Hrs]; subst.
    destruct (failed_fails page x r Hr) as [l Hl].
    destruct (IH rs extra Hlen Hrs) as (tr & Hex & Hrh & Hreq).
    simpl for_each. unfold and_then. rewrite exec_bind.
    simpl app. rewrite (attempt_once_failure page x r l _ Hl), Hex.
    eexists. split; [reflexivity|]. split.
    + rewrite rhythm_app, Hrh. reflexivity.
    + rewrite requests_app, Hreq. unfold requests, pause_after. simpl.
      destruct (x <? RETRY_LIMIT); reflexivity.
Qed.

(** Failures, then a success: the loop returns the rows of the success and
    does not reach the attempts that remain. *)
Lemma for_each_first_success (page : Z) (xs1 : list Z) (x : Z) (xs2 : list Z) :
  forall before good got extra,
    List.length before = List.length xs1 ->
    Forall failed before ->
    succeeds good got ->
    exists tr,
      exec (for_each (xs1 ++ x :: xs2) (attempt_once page)) (before ++ good :: extra)
      = Some (tr ++ [EvAcquire; EvGet page good; EvRelease], Return got, extra)
      /\ requests tr = List.length xs1.
Proof.
  induction xs1 as [|y xs1 IH]; intros before good got extra Hlen Hall Hgood.
  - destruct before; [|discriminate]. exists []. split; [|reflexivity].
    simpl for_each. unfold and_then. rewrite exec_bind. simpl app.
    rewrite (attempt_once_success page x good got _ Hgood). reflexivity.
  - destruct before as [|r before]; [discriminate|].
    injection Hlen as Hlen. inversion Hall as [|? ? Hr Hrs]; subst.
    destruct (failed_fails page y r Hr) as [l Hl].
    destruct (IH before good got extra Hlen Hrs Hgood) as (tr & Hex & Hreq).
    simpl for_each. unfold and_then. rewrite exec_bind.
    simpl app. rewrite (attempt_once_failure page y r l _ Hl).
    unfold and_then in Hex. rewrite Hex.
    exists (([EvAcquire; EvGet page r; EvSay l; EvRelease] ++ pause_after y) ++ tr).
    split; [rewrite <- !app_assoc; reflexivity|].
    rewrite requests_app, Hreq. unfold requests, pause_after. simpl.
    destruct (y <? RETRY_LIMIT); reflexivity.
Qed.

Lemma split_at {X : Type} (k : nat) (xs : list X) :
  (k < List.length xs)%nat ->
  exists xs1 x xs2, xs = xs1 ++ x :: xs2 /\ List.length xs1 = k.
Proof.
  intros Hk. destruct (nth_error xs k) as [x|] eqn:Hx.
  - destruct (nth_error_split xs k Hx) as (xs1 & xs2 & -> & Hl). eauto.
  - apply nth_error_None in Hx. lia.
Qed.

(** C3: when the [RETRY_LIMIT] attempts of a page all fail, [fetch_page]
    makes exactly [RETRY_LIMIT] requests, sleeps [RETRY_DELAY] between each
    two of them and not after the last, then says it gives up and returns
    the empty list without raising; the responses that would answer a further
    request are left untouched. *)
Theorem fetch_page_gives_up (page : Z) (rs extra : list response) :
  List.length rs = Z.to_nat RETRY_LIMIT ->
  Forall failed rs ->
  exists tr,
    exec (fetch_page page) (rs ++ extra)
    = Some (tr ++ [EvSay (LogGiveUp page)], Ok [], extra)
    /\ Z.of_nat (requests tr) = RETRY_LIMIT
    /\ rhythm tr
       = [Request; Pause RETRY_DELAY; Request; Pause RETRY_DELAY; Request].
Proof.
  intros Hlen Hall.
  destruct (for_each_all_fail page (py_range 1 (RETRY_LIMIT + 1)) rs extra Hlen Hall)
    as (tr & Hex & Hrh & Hreq).
  exists tr. unfold fetch_page. rewrite exec_bind, Hex. simpl.
  split; [reflexivity|]. split.
  - rewrite Hreq. reflexivity.
  - rewrite Hrh. reflexivity.
Qed.

(** C4: when the first [k] attempts fail, [k < RETRY_LIMIT], and attempt
    [k + 1] gets a 200 answer whose body is a dict, [fetch_page] returns
    exactly the records of that body: the items of its [products] entry (the
    empty list when absent), each transformed by [parse_product], one record
    for each item and in the order of the items.  It does so after exactly
    [k + 1] requests, the last event being the release that follows the
    successful request; what the network would answer next is left
    untouched. *)
Theorem fetch_page_first_success (page : Z) (k : nat) (before : list response)
    (d : list (string * pyval)) (items : list pyval) (got : list row)
    (extra : list response) :
  Z.of_nat k < RETRY_LIMIT ->
  List.length before = k ->
  Forall failed before ->
  py_iter (dict_get d "products" (PList [])) = Ok items ->
  Forall2 (fun item r => parse_product item = Ok r) items got ->
  exists tr,
    exec (fetch_page page) (before ++ Resp 200 (Ok (PDict d)) :: extra)
    = Some (tr ++ [EvAcquire; EvGet page (Resp 200 (Ok (PDict d))); EvRelease],
            Ok got, extra)
    /\ requests tr = k
    /\ requests (tr ++ [EvAcquire; EvGet page (Resp 200 (Ok (PDict d))); EvRelease])
       = S k
    /\ List.length got = List.length items.
Proof.
  intros Hk Hlen Hall Hitems Hgot.
  assert (Hrows : page_rows (PDict d) = Ok got).
  { unfold page_rows. cbn [py_get res_bind]. rewrite Hitems. cbn [res_bind].
    now apply res_map_Forall2. }
  destruct (split_at k (py_range 1 (RETRY_LIMIT + 1))) as (xs1 & x & xs2 & Hxs & Hl1).
  { change (List.length (py_range 1 (RETRY_LIMIT + 1))) with (Z.to_nat RETRY_LIMIT). lia. }
  destruct (for_each_first_success page xs1 x xs2 before (Resp 200 (Ok (PDict d))) got extra)
    as (tr & Hex & Hreq).
  { congruence. } { assumption. } { now constructor. }
  exists tr. unfold fetch_page. rewrite Hxs, exec_bind, Hex. simpl.
  rewrite app_nil_r.
  split; [reflexivity|]. split; [congruence|].
  split; [|symmetry; exact (Forall2_length Hgot)].
  rewrite requests_app, Hreq, Hl1. unfold requests. simpl. lia.
Qed.

(** ** How an attempt is classified *)

(** A success, spelled out: status 200, a body that parses to a dict, and a
    [products] entry (the empty list when absent) whose items
    [parse_product] all transforms. *)
Lemma succeeds_iff (r : response) (got : list row) :
  succeeds r got <->
  exists d items,
    r = Resp 200 (Ok (PDict d))
    /\ py_iter (dict_get d "products" (PList [])) = Ok items
    /\ res_map parse_product items = Ok got.
Proof.
  split.
  - intros [data got' Hrows]. unfold page_rows in Hrows.
    destruct data as [| | | | | |d]; try discriminate. simpl in Hrows.
    apply res_bind_Ok in Hrows as (items & Hit & Hmap).
    exists d, items. auto.
  - intros (d & items & -> & Hit & Hmap). constructor.
    unfold page_rows. simpl. rewrite Hit. exact Hmap.
Qed.

(** Whatever the network answers, the loop ends by falling through or by
    returning rows, never by raising. *)
Lemma for_each_never_raises (page : Z) (xs : list Z) :
  forall net,
    (List.length xs <= List.length net)%nat ->
    exists tr f rest,
      exec (for_each xs (attempt_once page)) net = Some (tr, f, rest)
      /\ (f = Next \/ exists got, f = Return got).
Proof.
  induction xs as [|x xs IH]; intros net Hlen.
  - exists [], Next, net. simpl. auto.
  - destruct net as [|r net]; [simpl in Hlen; lia|].
    simpl in Hlen. simpl for_each. unfold and_then. rewrite exec_bind.
    destruct (succeeds_or_fails page x r) as [[got Hs]|[l Hl]].
    + rewrite (attempt_once_success page x r got net Hs). simpl.
      do 3 eexists. split; [reflexivity|]. right. eauto.
    + rewrite (attempt_once_failure page x r l net Hl).
      destruct (IH net ltac:(lia)) as (tr & f & rest & Hex & Hf).
      fold (and_then (A := list row)). rewrite Hex.
      do 3 eexists. split; [reflexivity|]. exact Hf.
Qed.

Lemma fetch_page_never_raises (page : Z) (net : list response) :
  RETRY_LIMIT <= Z.of_nat (List.length net) ->
  exists tr got rest, exec (fetch_page page) net = Some (tr, Ok got, rest).
Proof.
  intros Hlen.
  destruct (for_each_never_raises page (py_range 1 (RETRY_LIMIT + 1)) net)
    as (tr & f & rest & Hex & Hf).
  { change (List.length (py_range 1 (RETRY_LIMIT + 1))) with (Z.to_nat RETRY_LIMIT). lia. }
  unfold fetch_page. rewrite exec_bind, Hex.
  destruct Hf as [->|[got ->]]; simpl; eauto.
Qed.

(** C9, amended: a response is a success exactly when its status is 200, its
    body parses to a dict, and the [products] entry (the empty list when
    absent) can be iterated and every item of it is transformed by
    [parse_product]; the attempt then returns the transformed rows.  Every
    other response is a failed attempt: a transport error or timeout, a
    status other than 200, a body that does not parse, and also a 200 body
    that parses but has another shape; the attempt logs it and falls through
    to the retry.  No response makes [fetch_page] raise. *)
Theorem attempt_classification (page attempt : Z) (r : response) (net : list response) :
  ((exists got, succeeds r got) \/ (exists l, fails page attempt r l))
  /\ (forall got,
        succeeds r got <->
        exists d items,
          r = Resp 200 (Ok (PDict d))
          /\ py_iter (dict_get d "products" (PList [])) = Ok items
          /\ res_map parse_product items = Ok got)
  /\ (forall d,
        r = Resp 200 (Ok (PDict d)) -> lookup d "products" = None -> succeeds r [])
  /\ (forall got,
        succeeds r got ->
        exec (attempt_once page attempt) (r :: net)
        = Some ([EvAcquire; EvGet page r; EvRelease], Return got, net))
  /\ (forall l,
        fails page attempt r l ->
        failed r
        /\ exec (attempt_once page attempt) (r :: net)
           = Some ([EvAcquire; EvGet page r; EvSay l; EvRelease] ++ pause_after attempt,
                   Next, net))
  /\ (RETRY_LIMIT <= Z.of_nat (List.length net) ->
      exists tr got rest, exec (fetch_page page) net = Some (tr, Ok got, rest)).
Proof.
  split; [apply succeeds_or_fails|].
  split; [intros got; apply succeeds_iff|].
  split.
  { intros d -> Hnone. constructor. unfold page_rows. cbn [py_get res_bind].
    unfold dict_get. rewrite Hnone. reflexivity. }
  split; [intros got; apply attempt_once_success|].
  split.
  { intros l Hl. split.
    - now apply fails_not_succeeds with (page := page) (attempt := attempt) (l := l).
    - now apply attempt_once_failure. }
  apply fetch_page_never_raises.
Qed.

(** ** The permit discipline *)

Lemma safe_mono {A : Type} (p : prog A) :
  forall q n n' (Q Q' : phase -> A -> Prop),
    safe q n p Q -> (n <= n')%nat -> (forall q' a, Q q' a -> Q' q' a) ->
    safe q n' p Q'.
Proof.
  induction p as [a|k IH|k IH|page k IH|d k IH|l k IH]; intros q n n' Q Q' Hs Hn HQ;
    simpl in *.
  - now apply HQ.
  - destruct Hs as [Hq Hs]. split; trivial.
    destruct n as [|n]; [easy|]. destruct n' as [|n']; [lia|].
    apply (IH _ n n' Q); auto; lia.
  - destruct Hs as [Hq Hs]. split; trivial.
    destruct n as [|n]; [easy|]. destruct n' as [|n']; [lia|].
    apply (IH _ n n' Q); auto; lia.
  - destruct Hs as [Hq Hs]. split; trivial.
    destruct n as [|n]; [easy|]. destruct n' as [|n']; [lia|].
    intros r. apply (IH r _ n n' Q); auto; lia.
  - destruct Hs as (Hq & Hd & Hs). repeat split; trivial.
    destruct n as [|n]; [easy|]. destruct n' as [|n']; [lia|].
    apply (IH _ n n' Q); auto; lia.
  - destruct Hs as [Hq Hs]. split; trivial.
    destruct n as [|n]; [easy|]. destruct n' as [|n']; [lia|].
    apply (IH _ n n' Q); auto; lia.
Qed.

Lemma safe_bind {A B : Type} (p : prog A) (f : A -> prog B) :
  forall q n m (Q : phase -> B -> Prop),
    safe q n p (fun q' a => safe q' m (f a) Q) ->
    safe q (n + m) (bind p f) Q.
Proof.
  induction p as [a|k IH|k IH|page k IH|d k IH|l k IH]; intros q n m Q Hs; simpl in *.
  - apply (safe_mono _ q m (n + m)%nat Q Q); auto; lia.
  - destruct Hs as [Hq Hs]. split; trivial.
    destruct n as [|n]; [easy|]. simpl. now apply IH.
  - destruct Hs as [Hq Hs]. split; trivial.
    destruct n as [|n]; [easy|]. simpl. now apply IH.
  - destruct Hs as [Hq Hs]. split; trivial.
    destruct n as [|n]; [easy|]. simpl. intros r. now apply IH.
  - destruct Hs as (Hq & Hd & Hs). repeat split; trivial.
    destruct n as [|n]; [easy|]. simpl. now apply IH.
  - destruct Hs as [Hq Hs]. split; trivial.
    destruct n as [|n]; [easy|]. simpl. now apply IH.
Qed.

(** A run of safe code leaves a trace that keeps to the discipline. *)
Lemma safe_track {A : Type} (p : prog A) :
  forall q n (Q : phase -> A -> Prop) net tr a rest,
    safe q n p Q ->
    exec p net = Some (tr, a, rest) ->
    exists q', track q tr = Some q' /\ Q q' a.
Proof.
  induction p as [a0|k IH|k IH|page k IH|d k IH|l k IH];
    intros q n Q net tr a rest Hs Hex; simpl in *.
  - injection Hex as <- <- <-. exists q. split; [reflexivity|assumption].
  - destruct Hs as [-> Hs]. destruct n; [easy|].
    destruct (exec k net) as [[[tr' a'] rest']|] eqn:Hk; [|discriminate].
    injection Hex as <- <- <-. simpl. exact (IH _ _ _ _ _ _ _ Hs Hk).
  - destruct Hs as [-> Hs]. destruct n; [easy|].
    destruct (exec k net) as [[[tr' a'] rest']|] eqn:Hk; [|discriminate].
    injection Hex as <- <- <-. simpl. exact (IH _ _ _ _ _ _ _ Hs Hk).
  - destruct Hs as [-> Hs]. destruct n; [easy|].
    destruct net as [|r net]; [discriminate|].
    destruct (exec (k r) net) as [[[tr' a'] rest']|] eqn:Hk; [|discriminate].
    injection Hex as <- <- <-. simpl. exact (IH _ _ _ _ _ _ _ _ (Hs r) Hk).
  - destruct Hs as (-> & -> & Hs). destruct n; [easy|].
    destruct (exec k net) as [[[tr' a'] rest']|] eqn:Hk; [|discriminate].
    injection Hex as <- <- <-. simpl. exact (IH _ _ _ _ _ _ _ Hs Hk).
  - destruct Hs as [Hq Hs]. destruct n; [easy|].
    destruct (exec k net) as [[[tr' a'] rest']|] eqn:Hk; [|discriminate].
    injection Hex as <- <- <-. simpl.
    destruct q; try easy; exact (IH _ _ _ _ _ _ _ Hs Hk).
Qed.

Lemma track_app (tr tr' : list event) :
  forall q,
    track q (tr ++ tr') =
    match track q tr with
    | Some q' => track q' tr'
    | None => None
    end.
Proof.
  induction tr as [|e tr IH]; intros q; [reflexivity|].
  destruct e as [| |page r|d|l]; destruct q; simpl; auto.
  all: destruct (d =? RETRY_DELAY); auto.
Qed.

(** Along a tracked trace the count of permits follows the phase. *)
Lemma track_in_hand (tr : list event) :
  forall q q', track q tr = Some q' -> in_hand q + permits_in_hand tr = in_hand q'.
Proof.
  induction tr as [|e tr IH]; intros q q' H; cbn [track permits_in_hand] in *.
  - injection H as <-. lia.
  - destruct e as [| |page r|d|l]; destruct q; try discriminate;
      try (destruct (d =? RETRY_DELAY); try discriminate);
      apply IH in H; cbn [in_hand] in *; lia.
Qed.

(** After its request a tracked trace has log lines only, up to the
    release. *)
Lemma track_called (tr : list event) :
  forall q', track Called tr = Some q' -> q' <> Called ->
    exists says rest, tr = says ++ EvRelease :: rest /\ Forall is_say says.
Proof.
  induction tr as [|e tr IH]; intros q' H Hne; simpl in *.
  - injection H as <-. contradiction.
  - destruct e as [| |page r|d|l]; try discriminate.
    + exists [], tr. split; [reflexivity|constructor].
    + destruct (IH q' H Hne) as (says & rest & -> & Hall).
      exists (EvSay l :: says), rest. split; [reflexivity|].
      constructor; [exact I|assumption].
Qed.

Lemma request_safe (page attempt : Z) :
  safe Ready 2 (request page attempt) (fun q _ => q = Called).
Proof.
  simpl. split; [reflexivity|]. intros [e|status body]; simpl; trivial.
  destruct (status =? 200).
  - match goal with
    | |- context [match ?x with Ok _ => _ | Raise _ => _ end] => destruct x
    end; reflexivity.
  - simpl. split; [discriminate|reflexivity].
Qed.

Lemma guarded_request_safe (page attempt : Z) :
  safe Ready 3
    (try_except (request page attempt)
       (fun e => Say (LogError page e attempt) (Ret Next)))
    (fun q f => q = Called /\ calm f).
Proof.
  unfold try_except. apply (safe_bind _ _ Ready 2 1).
  apply (safe_mono _ Ready 2 2 (fun q _ => q = Called)); [apply request_safe|lia|].
  intros q' f ->. destruct f; simpl; auto.
  split; [discriminate|auto].
Qed.

Lemma attempt_once_safe (page attempt : Z) :
  safe Idle 6 (attempt_once page attempt) (fun q f => q = Idle /\ calm f).
Proof.
  unfold attempt_once, and_then. apply (safe_bind _ _ Idle 5 1).
  unfold async_with_semaphore. cbn [safe]. split; [reflexivity|].
  apply (safe_bind _ _ Ready 3 1).
  apply (safe_mono _ Ready 3 3 (fun q f => q = Called /\ calm f));
    [apply guarded_request_safe|lia|].
  intros q' f [-> Hf]. simpl. split; [reflexivity|].
  destruct f; simpl; auto; try contradiction.
  destruct (attempt <? RETRY_LIMIT); simpl; auto.
Qed.

Lemma for_each_safe (page : Z) (xs : list Z) :
  safe Idle (6 * List.length xs) (for_each xs (attempt_once page))
    (fun q f => q = Idle /\ calm f).
Proof.
  induction xs as [|x xs IH]; [simpl; auto|].
  simpl for_each. unfold and_then.
  replace (6 * List.length (x :: xs))%nat with (6 + 6 * List.length xs)%nat
    by (simpl; lia).
  apply safe_bind.
  apply (safe_mono _ Idle 6 6 (fun q f => q = Idle /\ calm f));
    [apply attempt_once_safe|lia|].
  intros q' f [-> Hf]. destruct f; simpl; auto; contradiction.
Qed.

Lemma fetch_page_safe (page : Z) :
  safe Idle 19 (fetch_page page) page_task_ends.
Proof.
  unfold fetch_page. apply (safe_bind _ _ Idle 18 1).
  apply (safe_mono _ Idle _ 18 (fun q f => q = Idle /\ calm f)
           _ (for_each_safe page (py_range 1 (RETRY_LIMIT + 1)))).
  - simpl. lia.
  - intros q' f [-> Hf]. unfold page_task_ends.
    destruct f; simpl; eauto; try contradiction.
    split; [discriminate|]. eauto.
Qed.

(** C5: in every run of [fetch_page], whatever the network answers, a sleep
    starts only when every permit acquired so far has been released, and it
    lasts [RETRY_DELAY]; a request is made with exactly one permit in hand,
    and after it nothing but a log line comes before the release, so the
    permit is back before any sleep and before the function returns. *)
Theorem sleep_holds_no_permit (page : Z) (net : list response)
    (tr : list event) (result : res (list row)) (rest : list response) :
  exec (fetch_page page) net = Some (tr, result, rest) ->
  (forall pre d post,
      tr = pre ++ EvSleep d :: post ->
      permits_in_hand pre = 0 /\ d = RETRY_DELAY)
  /\ (forall pre p r post,
        tr = pre ++ EvGet p r :: post ->
        permits_in_hand pre = 1
        /\ exists says post',
             post = says ++ EvRelease :: post' /\ Forall is_say says)
  /\ permits_in_hand tr = 0.
Proof.
  intros Hex.
  destruct (safe_track _ _ _ _ _ _ _ _ (fetch_page_safe page) Hex)
    as (q' & Htrack & -> & _).
  split; [|split].
  - intros pre d post ->. rewrite track_app in Htrack.
    destruct (track Idle pre) as [qm|] eqn:Hpre; [|discriminate].
    apply track_in_hand in Hpre. simpl in Htrack.
    destruct qm; try discriminate.
    destruct (Z.eqb_spec d RETRY_DELAY); [|discriminate].
    simpl in Hpre. auto.
  - intros pre p r post ->. rewrite track_app in Htrack.
    destruct (track Idle pre) as [qm|] eqn:Hpre; [|discriminate].
    apply track_in_hand in Hpre. simpl in Htrack.
    destruct qm; try discriminate. simpl in Hpre. split; [lia|].
    apply (track_called post Idle Htrack). discriminate.
  - apply track_in_hand in Htrack. simpl in Htrack. lia.
Qed.

(** ** The pool: how one step changes it *)

Lemma set_task_at (l1 : list task) (t t' : task) (l2 : list task) :
  set_task (List.length l1) t' (l1 ++ t :: l2) = l1 ++ t' :: l2.
Proof.
  unfold set_task. induction l1 as [|a l1 IH]; simpl; [reflexivity|].
  f_equal. exact IH.
Qed.

(** The two kinds of step: a task runs an effect, or [main] takes the result
    of a task that has finished. *)
Lemma pool_step_cases (n : Z) (i : nat) (r : response) (s s' : pool) :
  pool_step n i r s = Some s' ->
  failure s = None
  /\ exists l1 t l2,
       tasks s = l1 ++ t :: l2
       /\ ((exists code' dh say,
              effect_of r (t_code t) = Some (code', dh, say)
              /\ (dh = 1 -> 0 < permits s)
              /\ s' = mkPool (l1 ++ mkTask (t_page t) code' (t_held t + dh) (t_taken t) :: l2)
                        (permits s - dh) (rows s) (done s) (out s ++ say) None)
           \/ (exists result,
                 t_code t = Ret result
                 /\ t_taken t = false
                 /\ s' = match result with
                         | Ok page_rows =>
                             mkPool (l1 ++ mkTask (t_page t) (t_code t) (t_held t) true :: l2)
                               (permits s) (rows s ++ page_rows) (done s + 1)
                               (progress n (done s + 1) (rows s ++ page_rows) (out s))
                               None
                         | Raise e =>
                             mkPool (l1 ++ mkTask (t_page t) (t_code t) (t_held t) true :: l2)
                               (permits s) (rows s) (done s) (out s) (Some e)
                         end)).
Proof.
  unfold pool_step. intros H.
  destruct (failure s) as [e|]; [discriminate|]. split; [reflexivity|].
  destruct (nth_error (tasks s) i) as [t|] eqn:Hi; [|discriminate].
  destruct (nth_error_split (tasks s) i Hi) as (l1 & l2 & Hts & Hlen).
  assert (Hset : forall t', set_task i t' (tasks s) = l1 ++ t' :: l2).
  { intros t'. rewrite Hts, <- Hlen. apply set_task_at. }
  exists l1, t, l2. split; [assumption|].
  destruct (t_code t) as [result|k|k|page k|d k|l k] eqn:Hc.
  - right. exists result. destruct (t_taken t); [discriminate|].
    split; [reflexivity|]. split; [reflexivity|].
    destruct result; injection H as <-; rewrite Hset; reflexivity.
  - left. destruct (Z.ltb_spec 0 (permits s)); [|discriminate].
    injection H as <-. exists k, 1, []. rewrite Hset, app_nil_r. auto.
  - left. injection H as <-. exists k, (-1), []. rewrite Hset, app_nil_r.
    split; [reflexivity|]. split; [lia|reflexivity].
  - left. injection H as <-. exists (k r), 0, []. rewrite Hset, app_nil_r.
    rewrite Z.add_0_r, Z.sub_0_r.
    split; [reflexivity|]. split; [lia|reflexivity].
  - left. injection H as <-. exists k, 0, []. rewrite Hset, app_nil_r.
    rewrite Z.add_0_r, Z.sub_0_r.
    split; [reflexivity|]. split; [lia|reflexivity].
  - left. injection H as <-. exists k, 0, [l]. rewrite Hset.
    rewrite Z.add_0_r, Z.sub_0_r.
    split; [reflexivity|]. split; [lia|reflexivity].
Qed.

(** ** The pool: the semaphore bounds the requests in flight *)

Lemma safe_effect {A : Type} (c c' : prog A) (r : response) (dh : Z) (say : list log)
    (q : phase) (n : nat) (Q : phase -> A -> Prop) :
  safe q n c Q ->
  effect_of r c = Some (c', dh, say) ->
  exists q' n',
    safe q' n' c' Q /\ (n' < n)%nat /\ in_hand q' = in_hand q + dh.
Proof.
  destruct c as [a|k|k|page k|d k|l k]; simpl; intros Hs He; try discriminate;
    injection He as <- <- <-.
  - destruct Hs as [-> Hs]. destruct n as [|n]; [easy|].
    exists Ready, n. repeat split; trivial; lia.
  - destruct Hs as [-> Hs]. destruct n as [|n]; [easy|].
    exists Idle, n. repeat split; trivial; lia.
  - destruct Hs as [-> Hs]. destruct n as [|n]; [easy|].
    exists Called, n. repeat split; trivial; lia.
  - destruct Hs as (-> & _ & Hs). destruct n as [|n]; [easy|].
    exists Idle, n. repeat split; trivial; lia.
  - destruct Hs as [_ Hs]. destruct n as [|n]; [easy|].
    exists q, n. repeat split; trivial; lia.
Qed.

Lemma permits_held_app (l1 l2 : list task) :
  permits_held (l1 ++ l2) = permits_held l1 + permits_held l2.
Proof.
  unfold permits_held. induction l1 as [|t l1 IH]; simpl; [reflexivity|].
  rewrite IH. lia.
Qed.

Lemma permits_held_cons (t : task) (l : list task) :
  permits_held (t :: l) = t_held t + permits_held l.
Proof. reflexivity. Qed.

Lemma task_ok_held (t : task) : task_ok t -> 0 <= t_held t <= 1.
Proof.
  intros (q & n & _ & ->). destruct q; simpl; lia.
Qed.

Lemma task_ok_requesting (t : task) : task_ok t -> requesting t = true -> t_held t = 1.
Proof.
  intros (q & n & Hs & ->) Hr. unfold requesting in Hr.
  destruct (t_code t); try discriminate. simpl in Hs. destruct Hs as [-> _]. reflexivity.
Qed.

Lemma task_ok_sleeping (t : task) : task_ok t -> sleeping t = true -> t_held t = 0.
Proof.
  intros (q & n & Hs & ->) Hr. unfold sleeping in Hr.
  destruct (t_code t); try discriminate. simpl in Hs. destruct Hs as [-> _]. reflexivity.
Qed.

Lemma in_flight_le_held (ts : list task) :
  Forall task_ok ts ->
  Z.of_nat (List.length (filter requesting ts)) <= permits_held ts.
Proof.
  induction 1 as [|t ts Ht Hts IH]; [reflexivity|].
  rewrite permits_held_cons. simpl filter.
  pose proof (task_ok_held t Ht).
  destruct (requesting t) eqn:Hr.
  - rewrite (task_ok_requesting t Ht Hr). simpl List.length. lia.
  - lia.
Qed.

Lemma sound_spawn (n : Z) : sound (spawn n).
Proof.
  unfold sound, spawn, held. simpl.
  assert (H : forall pages,
             Forall task_ok (map (fun page => mkTask page (fetch_page page) 0 false) pages)
             /\ permits_held (map (fun page => mkTask page (fetch_page page) 0 false) pages) = 0).
  { induction pages as [|p pages [IH1 IH2]]; simpl; [split; [constructor|reflexivity]|].
    split.
    - constructor; [|assumption]. exists Idle, 19%nat. split; [apply fetch_page_safe|reflexivity].
    - rewrite permits_held_cons, IH2. reflexivity. }
  destruct (H (py_range 1 (n + 1))) as [H1 H2].
  rewrite H2. repeat split; trivial; unfold CONCURRENCY; lia.
Qed.

Lemma sound_step (n : Z) (s s' : pool) : sound s -> step n s s' -> sound s'.
Proof.
  intros (Hok & Hsum & Hpos & Hnone) (i & r & Hstep).
  apply pool_step_cases in Hstep as (_ & l1 & t & l2 & Hts & Hcase).
  unfold held in Hsum. rewrite Hts in Hok, Hsum.
  apply Forall_app in Hok as [Hok1 Hok2].
  inversion Hok2 as [|? ? Hokt Hok2']; subst.
  rewrite permits_held_app, permits_held_cons in Hsum.
  destruct Hcase as [(code' & dh & say & He & Hperm & ->)|(result & Hc & Htk & ->)].
  - destruct Hokt as (q & m & Hs & Hh).
    destruct (safe_effect _ _ _ _ _ _ _ _ Hs He) as (q' & m' & Hs' & _ & Hh').
    unfold sound, held. simpl.
    rewrite permits_held_app, permits_held_cons. simpl.
    repeat split; trivial; try lia.
    + apply Forall_app. split; [assumption|]. constructor; [|assumption].
      exists q', m'. simpl. split; [assumption|lia].
    + assert (dh = 1 \/ dh <= 0) as [->|Hd]; [|auto; lia|lia].
      destruct (t_code t); simpl in He; try discriminate;
        injection He as _ <- _; lia.
  - destruct Hokt as (q & m & Hs & Hh). rewrite Hc in Hs. simpl in Hs.
    destruct Hs as [-> [got ->]].
    unfold sound, held. simpl.
    rewrite permits_held_app, permits_held_cons. simpl.
    repeat split; trivial.
    apply Forall_app. split; [assumption|]. constructor; [|assumption].
    exists Idle, m. simpl. rewrite Hc. simpl. split; [|assumption].
    split; [reflexivity|eauto].
Qed.

Lemma sound_steps (n : Z) (s s' : pool) : sound s -> steps n s s' -> sound s'.
Proof.
  intros Hs Hsteps. induction Hsteps as [s|s s' s'' Hstep _ IH]; [assumption|].
  apply IH. now apply (sound_step n s).
Qed.

(** C2: in every state that an interleaving of the page tasks reaches, the
    permits acquired and not released are at most [CONCURRENCY], the
    semaphore's counter accounts for exactly the rest, every request in
    flight is made by a task that holds a permit, so at most [CONCURRENCY]
    requests are in flight, and no task holds more than one permit. *)
Theorem permits_never_exceed_concurrency (n : Z) (s : pool) :
  steps n (spawn n) s ->
  0 <= held s <= CONCURRENCY
  /\ CONCURRENCY = 20
  /\ permits s = CONCURRENCY - held s
  /\ in_flight s <= held s
  /\ in_flight s <= CONCURRENCY
  /\ Forall (fun t => 0 <= t_held t <= 1
                      /\ (requesting t = true -> t_held t = 1)
                      /\ (sleeping t = true -> t_held t = 0)) (tasks s).
Proof.
  intros Hsteps.
  destruct (sound_steps n _ _ (sound_spawn n) Hsteps) as (Hok & Hsum & Hpos & _).
  pose proof (in_flight_le_held _ Hok) as Hfl. fold (in_flight s) (held s) in Hfl.
  assert (0 <= held s).
  { unfold held. clear - Hok. induction Hok as [|t ts Ht _ IH]; [reflexivity|].
    rewrite permits_held_cons. pose proof (task_ok_held t Ht). lia. }
  repeat split; try lia.
  apply Forall_forall. intros t Ht.
  rewrite Forall_forall in Hok. specialize (Hok t Ht).
  repeat split; try apply (task_ok_held t Hok).
  - now apply task_ok_requesting.
  - now apply task_ok_sleeping.
Qed.

(** ** The pool: what [main] gathers *)

Lemma exec_effect {A : Type} (c c' : prog A) (r : response) (dh : Z) (say : list log) :
  effect_of r c = Some (c', dh, say) ->
  forall net, outcome_of (exec c (consumed r c ++ net)) = outcome_of (exec c' net).
Proof.
  destruct c as [a|k|k|page k|d k|l k]; simpl; intros He net; try discriminate;
    injection He as <- <- <-;
    match goal with
    | |- context [exec ?p net] => destruct (exec p net) as [[[tr a] rest]|]
    end; reflexivity.
Qed.

Lemma gathering_spawn (n : Z) : gathering n (spawn n).
Proof.
  unfold gathering, spawn. simpl.
  induction (py_range 1 (n + 1)) as [|p pages (IH1 & IH2 & IH3 & IH4 & IH5)]; simpl.
  - repeat split; constructor.
  - repeat split.
    + now rewrite IH1.
    + constructor; [|assumption]. exists []. intros net. reflexivity.
    + constructor; [|assumption]. simpl. discriminate.
    + assumption.
    + assumption.
Qed.

Lemma filter_taken_app (l1 l2 : list task) :
  List.length (filter t_taken (l1 ++ l2))
  = (List.length (filter t_taken l1) + List.length (filter t_taken l2))%nat.
Proof. now rewrite filter_app, length_app. Qed.

Lemma gathering_step (n : Z) (s s' : pool) :
  sound s -> gathering n s -> step n s s' -> gathering n s'.
Proof.
  intros (Hok & _ & _ & _) (Hpages & Htr & Htk & Hdone & Hperm) (i & r & Hstep).
  apply pool_step_cases in Hstep as (_ & l1 & t & l2 & Hts & Hcase).
  rewrite Hts in Hpages, Htr, Htk, Hdone, Hperm, Hok.
  apply Forall_app in Htr as [Htr1 Htr2]. inversion Htr2 as [|? ? Htrt Htr2']; subst.
  apply Forall_app in Htk as [Htk1 Htk2]. inversion Htk2 as [|? ? Htkt Htk2']; subst.
  apply Forall_app in Hok as [_ Hok2]. inversion Hok2 as [|? ? Hokt _]; subst.
  rewrite map_app in Hpages, Hperm. simpl in Hpages, Hperm.
  rewrite List.concat_app in Hperm. simpl in Hperm.
  rewrite filter_taken_app in Hdone.
  destruct Hcase as [(code' & dh & say & He & _ & ->)|(result & Hc & Htaken & ->)].
  - assert (Hunt : t_taken t = false).
    { destruct (t_taken t) eqn:E; [|reflexivity].
      destruct (Htkt eq_refl) as [result Hc]. rewrite Hc in He. discriminate. }
    unfold gathering. simpl.
    rewrite !map_app, List.concat_app, filter_taken_app. simpl.
    unfold taken_rows in *. simpl. rewrite Hunt in *. simpl in *.
    rewrite ?Hunt in Hdone.
    repeat split; trivial.
    + apply Forall_app. split; [assumption|]. constructor; [|assumption].
      destruct Htrt as [seen Hseen].
      exists (seen ++ consumed r (t_code t)). intros net. cbn [t_page t_code].
      rewrite <- app_assoc, Hseen. now apply exec_effect with (dh := dh) (say := say).
    + apply Forall_app. split; [assumption|]. constructor; [|assumption].
      simpl. intros E. congruence.
  - destruct Hokt as (q & m & Hs & _). rewrite Hc in Hs. simpl in Hs.
    destruct Hs as [_ [got ->]].
    unfold gathering. simpl.
    rewrite !map_app, List.concat_app, filter_taken_app. simpl.
    unfold taken_rows in *. simpl. rewrite Htaken in *. simpl in *.
    rewrite ?Htaken in Hdone.
    unfold task_rows at 2. simpl. rewrite Hc.
    repeat split; trivial.
    + apply Forall_app. split; [assumption|]. constructor; [|assumption].
      destruct Htrt as [seen Hseen]. exists seen. intros net.
      cbn [t_page t_code]. rewrite <- Hc. apply Hseen.
    + apply Forall_app. split; [assumption|]. constructor; [|assumption].
      simpl. eauto.
    + lia.
    + rewrite Hperm.
      rewrite <- app_assoc. apply Permutation_app_head. apply Permutation_app_comm.
Qed.

Lemma gathering_steps (n : Z) (s s' : pool) :
  sound s -> gathering n s -> steps n s s' -> gathering n s'.
Proof.
  intros Hs Hg Hsteps. induction Hsteps as [s|s s' s'' Hstep _ IH]; [assumption|].
  apply IH; [now apply (sound_step n s)|now apply (gathering_step n s)].
Qed.

(** ** The pool: every run ends, and none gets stuck *)












(** ** The orchestrator *)

Lemma py_range_length (a b : Z) : List.length (py_range a b) = Z.to_nat (b - a).
Proof. unfold py_range. now rewrite length_map, length_seq. Qed.



Lemma filter_all {X : Type} (f : X -> bool) (l : list X) :
  forallb f l = true -> filter f l = l.
Proof.
  induction l as [|x l IH]; simpl; [reflexivity|].
  destruct (f x); simpl; [|discriminate]. intros H. now rewrite IH.
Qed.


(** The result a finished task holds is what [fetch_page] returns for its
    page on the responses the task saw. *)
Lemma finished_task (t : task) :
  task_ok t -> traced t -> (exists result, t_code t = Ret result) ->
  exists got seen tr,
    t_code t = Ret (Ok got)
    /\ exec (fetch_page (t_page t)) seen = Some (tr, Ok got, []).
Proof.
  intros (q & m & Hs & _) [seen Hseen] [result Hc].
  rewrite Hc in Hs. simpl in Hs. destruct Hs as [_ [got ->]].
  specialize (Hseen []). rewrite Hc, app_nil_r in Hseen.
  change (outcome_of (exec (Ret (Ok got)) [])) with (Some (Ok got, @nil response)) in Hseen.
  destruct (exec (fetch_page (t_page t)) seen) as [[[tr a] rest]|] eqn:Hex;
    [|discriminate].
  injection Hseen as -> ->. exists got, seen, tr. split; [exact Hc|exact Hex].
Qed.


(** ** The page-count step and the start of [main] *)

(** [get_total_pages] makes its one request and then at most prints. *)
Lemma get_total_pages_once (r : response) :
  exists l result,
    exec get_total_pages [r] = Some (EvGet 1 r :: l, result, [])
    /\ rhythm (EvGet 1 r :: l) = [Request].
Proof.
  unfold get_total_pages. simpl.
  destruct r as [e|status body]; simpl.
  - exists [], (Raise e). auto.
  - match goal with
    | |- context [match ?x with Ok _ => _ | Raise _ => _ end] =>
        destruct x as [[total pages]|e]
    end; simpl.
    + exists [EvSay (LogTotal total pages)], (Ok pages). auto.
    + exists [], (Raise e). auto.
Qed.

(** How the page-count step fails. *)
Lemma get_total_pages_failures (status : Z) (e : exn) (d m : list (string * pyval)) :
  (exists tr, exec get_total_pages [NetFail e] = Some (tr, Raise e, []))
  /\ (exists tr, exec get_total_pages [Resp status (Raise e)] = Some (tr, Raise e, []))
  /\ (lookup d "meta" = None ->
      exists tr, exec get_total_pages [Resp status (Ok (PDict d))]
                 = Some (tr, Raise KeyError, []))
  /\ (lookup d "meta" = Some (PDict m) -> lookup m "total" = None ->
      exists tr, exec get_total_pages [Resp status (Ok (PDict d))]
                 = Some (tr, Raise KeyError, [])).
Proof.
  repeat split.
  - eexists. reflexivity.
  - eexists. reflexivity.
  - intros Hd. simpl. rewrite Hd. simpl. eexists. reflexivity.
  - intros Hd Hm. simpl. rewrite Hd. simpl. rewrite Hm. simpl. eexists. reflexivity.
Qed.

Lemma main_start_mkdir_fails (e : exn) (net : list response) :
  exec (main_start (Raise e)) net = Some ([], Raise e, net).
Proof. reflexivity. Qed.

Lemma main_start_exec (u : unit) (net : list response) :
  exec (main_start (Ok u)) net =
  match exec get_total_pages net with
  | Some (tr, Raise e, rest) => Some (tr, Raise e, rest)
  | Some (tr, Ok pages, rest) =>
      match as_num pages with
      | Some (NInt n) => Some (tr, Ok n, rest)
      | _ => Some (tr, Raise TypeError, rest)
      end
  | None => None
  end.
Proof.
  unfold main_start. rewrite exec_bind.
  destruct (exec get_total_pages net) as [[[tr [pages|e]] rest]|]; simpl;
    rewrite ?app_nil_r; trivial.
  destruct (as_num pages) as [[n|f]|]; simpl; rewrite app_nil_r; reflexivity.
Qed.

(** An early stop is the only way a run can go once the start has raised. *)
Lemma main_early_only (w : world) (tr : list event) (e : exn) (rest : list response)
    (o : outcome) :
  exec (main_start (mkdir_result w)) [page_count_response w] = Some (tr, Raise e, rest) ->
  main w o -> o = AbortedBeforeFetching e.
Proof.
  intros Hex Hmain.
  inversion Hmain as [w' tr' e' rest' Hex'|w' tr' n rest' s e' Hex' _ _
                      |w' tr' n rest' s Hex' _ _ _]; subst; congruence.
Qed.

(** C8, amended: the page-count step makes exactly one request and never
    retries; when it fails (transport error, timeout, a body that does not
    parse, [meta] or [total] missing) the exception leaves [main], the run is
    aborted before any page is fetched and the process exits with a non-zero
    status.  Before fetching begins a run is aborted only by that, by a
    failure to make the output directory, or by a page count that is not an
    int when the range of pages is built. *)
Theorem page_count_failure_is_fatal (w : world) :
  (forall r,
      exists l result,
        exec get_total_pages [r] = Some (EvGet 1 r :: l, result, [])
        /\ rhythm (EvGet 1 r :: l) = [Request])
  /\ (forall status e d m,
        (exists tr, exec get_total_pages [NetFail e] = Some (tr, Raise e, []))
        /\ (exists tr, exec get_total_pages [Resp status (Raise e)]
                       = Some (tr, Raise e, []))
        /\ (lookup d "meta" = None ->
            exists tr, exec get_total_pages [Resp status (Ok (PDict d))]
                       = Some (tr, Raise KeyError, []))
        /\ (lookup d "meta" = Some (PDict m) -> lookup m "total" = None ->
            exists tr, exec get_total_pages [Resp status (Ok (PDict d))]
                       = Some (tr, Raise KeyError, [])))
  /\ (forall u tr e rest,
        mkdir_result w = Ok u ->
        exec get_total_pages [page_count_response w] = Some (tr, Raise e, rest) ->
        main w (AbortedBeforeFetching e)
        /\ forall o, main w o -> o = AbortedBeforeFetching e /\ exit_status o = 1)
  /\ (forall e,
        main w (AbortedBeforeFetching e) ->
        mkdir_result w = Raise e
        \/ (exists u tr rest,
              mkdir_result w = Ok u
              /\ exec get_total_pages [page_count_response w] = Some (tr, Raise e, rest))
        \/ (exists u tr rest pages,
              mkdir_result w = Ok u
              /\ exec get_total_pages [page_count_response w] = Some (tr, Ok pages, rest)
              /\ (forall n, as_num pages <> Some (NInt n))
              /\ e = TypeError)).
Proof.
  split; [apply get_total_pages_once|].
  split; [intros status e d m; apply get_total_pages_failures|].
  split.
  - intros u tr e rest Hmk Hex.
    assert (Hstart : exec (main_start (mkdir_result w)) [page_count_response w]
                     = Some (tr, Raise e, rest)).
    { rewrite Hmk, main_start_exec, Hex. reflexivity. }
    split.
    + exact (main_stops_early w tr e rest Hstart).
    + intros o Hmain. rewrite (main_early_only w tr e rest o Hstart Hmain). auto.
  - intros e Hmain.
    inversion Hmain as [w' tr e' rest Hex| |]; subst;
      try match goal with
          | H : match ?x with Ok _ => _ | Raise _ => _ end = _ |- _ =>
              destruct x; discriminate
          end.
    destruct (mkdir_result w) as [u|e0] eqn:Hmk.
    + right. rewrite main_start_exec in Hex.
      destruct (exec get_total_pages [page_count_response w])
        as [[[tr' [pages|e1]] rest']|] eqn:Hg; [| |discriminate].
      * right. exists u, tr', rest', pages.
        destruct (as_num pages) as [[n|f]|] eqn:Hnum; try discriminate;
          injection Hex as <- <- <-;
          (split; [reflexivity|]); (split; [reflexivity|]);
          (split; [intros n; congruence|reflexivity]).
      * left. injection Hex as <- <- <-. eauto.
    + left. rewrite main_start_mkdir_fails in Hex. congruence.
Qed.

End Properties.

(** * Further properties *)

Section FurtherProperties.

Context {builtins : Builtins}.

(** ** The record transformer, case by case *)

Lemma parse_product_not_dict (p : pyval) :
  (forall d, p <> PDict d) -> parse_product p = Raise AttributeError.
Proof.
  intros H. destruct p; try reflexivity. now destruct (H d).
Qed.

(** X1: [parse_product] returns a row for a dict exactly when the offer and
    its seller can be read (each is falsy or a dict), the discount does not
    raise, and the seller's name, the ratings, the category and the image can
    be read.  When it raises, it raises [AttributeError] for an offer or a
    seller that cannot be read (lines 70-71), else what the discount raises
    (lines 78-79), else [AttributeError] for one of the other four fields
    (lines 88-100); on a value that is not a dict it raises
    [AttributeError]. *)
Theorem parse_product_succeeds_iff (d : list (string * pyval)) :
  let offer := nested (dict_get d "default_offer" PNone) in
  let retail_price := dict_get offer "retail_price" PNone in
  let old_price := dict_get offer "old_price" PNone in
  ((exists r, parse_product (PDict d) = Ok r) <->
   offer_readable d = true
   /\ (exists pct, discount retail_price old_price = Ok pct)
   /\ fields_readable d = true)
  /\ (forall e,
        parse_product (PDict d) = Raise e <->
        (offer_readable d = false /\ e = AttributeError)
        \/ (offer_readable d = true /\ discount retail_price old_price = Raise e)
        \/ (offer_readable d = true
            /\ (exists pct, discount retail_price old_price = Ok pct)
            /\ fields_readable d = false /\ e = AttributeError))
  /\ (forall p, (forall d', p <> PDict d') -> parse_product p = Raise AttributeError).
Proof.
  intros offer retail_price old_price.
  assert (Hform :
            (parse_product (PDict d)
            = if offer_readable d then
                match discount retail_price old_price with
                | Ok pct =>
                    if fields_readable d then parse_product (PDict d)
                    else Raise AttributeError
                | Raise e => Raise e
                end
              else Raise AttributeError)
            /\ (offer_readable d = true -> fields_readable d = true ->
                forall pct, discount retail_price old_price = Ok pct ->
                exists r, parse_product (PDict d) = Ok r)).
  { unfold offer_readable, fields_readable, parse_product. cbn [py_get res_bind].
    rewrite !py_get_or.
    destruct (usable (dict_get d "default_offer" PNone));
      [|split; [reflexivity|discriminate]].
    cbn [res_bind andb]. rewrite !py_get_or.
    fold offer.
    destruct (usable (dict_get offer "seller" PNone));
      [|split; [reflexivity|discriminate]].
    cbn [res_bind andb]. rewrite !py_get_or.
    fold retail_price old_price.
    destruct (discount retail_price old_price) as [pct|e]; cbn [res_bind];
      [|split; [reflexivity|discriminate]].
    destruct (usable (dict_get d "category" PNone)); cbn [res_bind andb];
      [|rewrite !andb_false_r; cbn [andb]; split; [reflexivity|discriminate]].
    destruct (usable (dict_get (nested (dict_get offer "seller" PNone)) "marketing_name" PNone));
      cbn [res_bind andb]; [|split; [reflexivity|discriminate]].
    destruct (usable (dict_get d "ratings" PNone)); cbn [res_bind andb];
      [|split; [reflexivity|discriminate]].
    destruct (usable (dict_get d "main_img" PNone)); cbn [res_bind andb];
      [|split; [reflexivity|discriminate]].
    split; [reflexivity|]. intros _ _ pct' _. eauto. }
  destruct Hform as [Hform Hok].
  destruct (offer_readable d) eqn:Ho.
  2: { split; [|split; [|exact parse_product_not_dict]].
       - split; [intros [r Hr]; congruence|intros [H _]; discriminate].
       - intros e. split.
         + intros He. left. split; congruence.
         + intros [[_ ->]|[[H _]|[H _]]]; [exact Hform|discriminate|discriminate]. }
  destruct (discount retail_price old_price) as [pct|e0] eqn:Hd.
  2: { split; [|split; [|exact parse_product_not_dict]].
       - split; [intros [r Hr]; congruence|intros (_ & [pct H] & _); discriminate].
       - intros e. split.
         + intros He. right. left. split; congruence.
         + intros [[H _]|[[_ H]|(_ & [pct H] & _)]]; congruence. }
  destruct (fields_readable d) eqn:Hf.
  2: { split; [|split; [|exact parse_product_not_dict]].
       - split; [intros [r Hr]; congruence|intros (_ & _ & H); discriminate].
       - intros e. split.
         + intros He. right. right. repeat split; eauto; congruence.
         + intros [[H _]|[[_ H]|(_ & _ & _ & ->)]]; congruence. }
  destruct (Hok eq_refl eq_refl pct eq_refl) as [r Hr].
  split; [|split; [|exact parse_product_not_dict]].
  - split; [eauto|eauto].
  - intros e. split.
    + intros He. congruence.
    + intros [[H _]|[[_ H]|(_ & _ & H & _)]]; discriminate.
Qed.

(** ** Line 124, item by item *)

Lemma res_map_Raise {A B : Type} (f : A -> res B) (l : list A) (x : A) (e : exn) :
  In x l -> f x = Raise e -> exists e', res_map f l = Raise e'.
Proof.
  induction l as [|a l IH]; simpl; [easy|].
  intros [->|Hin] Hx.
  - rewrite Hx. simpl. eauto.
  - destruct (f a); simpl; [|eauto].
    destruct (IH Hin Hx) as [e' ->]. simpl. eauto.
Qed.

(** X2: the rows of a page are the transformed products, one for each
    product and in the order of the products; a single product that
    [parse_product] cannot transform makes the whole response a failed
    attempt, the good records of the page included. *)
Theorem page_is_all_or_nothing (d : list (string * pyval)) (items : list pyval) :
  py_iter (dict_get d "products" (PList [])) = Ok items ->
  (forall got,
      succeeds (Resp 200 (Ok (PDict d))) got <->
      Forall2 (fun item r => parse_product item = Ok r) items got)
  /\ (forall got,
        succeeds (Resp 200 (Ok (PDict d))) got -> List.length got = List.length items)
  /\ ((exists item e, In item items /\ parse_product item = Raise e) ->
      failed (Resp 200 (Ok (PDict d)))).
Proof.
  intros Hitems.
  assert (Hiff : forall got,
             succeeds (Resp 200 (Ok (PDict d))) got <->
             Forall2 (fun item r => parse_product item = Ok r) items got).
  { intros got. rewrite succeeds_iff, <- res_map_Forall2. split.
    - intros (d' & items' & [= <-] & Hi & Hm). congruence.
    - intros Hm. exists d, items. auto. }
  split; [exact Hiff|]. split.
  - intros got Hs. apply Hiff in Hs. symmetry. exact (Forall2_length Hs).
  - intros (item & e & Hin & He) got Hs.
    apply Hiff, res_map_Forall2 in Hs.
    destruct (res_map_Raise parse_product items item e Hin He) as [e' He'].
    congruence.
Qed.

(** ** Every run of one page *)

Lemma printed_app (tr tr' : list event) : printed (tr ++ tr') = printed tr ++ printed tr'.
Proof.
  induction tr as [|[| |p r|d|l] tr IH]; simpl; rewrite ?IH; reflexivity.
Qed.

Lemma attempt_once_starved (page attempt : Z) : exec (attempt_once page attempt) [] = None.
Proof. reflexivity. Qed.

(** Every run of the loop of [fetch_page]: the attempts fail one after the
    other, each on its own response, until one succeeds or none is left. *)
Lemma for_each_run (page : Z) (xs : list Z) :
  forall net tr f rest,
    exec (for_each xs (attempt_once page)) net = Some (tr, f, rest) ->
    exists xs1 xs2 before lines,
      xs = xs1 ++ xs2
      /\ List.length before = List.length xs1
      /\ Forall2 (fun ar l => fails page (fst ar) (snd ar) l) (combine xs1 before) lines
      /\ printed tr = lines
      /\ ((xs2 = [] /\ net = before ++ rest /\ f = Next
           /\ rhythm tr = flat_map beats_of_failure xs1)
          \/ (exists good got,
                xs2 <> [] /\ net = before ++ good :: rest /\ succeeds good got
                /\ f = Return got
                /\ rhythm tr = flat_map beats_of_failure xs1 ++ [Request])).
Proof.
  induction xs as [|x xs IH]; intros net tr f rest Hex.
  - simpl in Hex. injection Hex as <- <- <-.
    exists [], [], [], []. repeat split; auto.
  - cbn [for_each] in Hex. unfold and_then in Hex. rewrite exec_bind in Hex.
    destruct net as [|r net]; [rewrite attempt_once_starved in Hex; discriminate|].
    destruct (succeeds_or_fails page x r) as [[got Hs]|[l Hf]].
    + rewrite (attempt_once_success page x r got net Hs) in Hex. simpl in Hex.
      injection Hex as <- <- <-.
      exists [], (x :: xs), [], [].
      split; [reflexivity|]. split; [reflexivity|]. split; [constructor|].
      split; [reflexivity|].
      right. exists r, got. repeat split; auto. discriminate.
    + rewrite (attempt_once_failure page x r l net Hf) in Hex.
      destruct (exec (for_each xs (attempt_once page)) net) as [[[tr' f'] rest']|] eqn:Hrun;
        [|discriminate].
      injection Hex as <- <- <-.
      destruct (IH net tr' f' rest' Hrun)
        as (xs1 & xs2 & before & lines & -> & Hlen & Hall & Hsays & Hcase).
      exists (x :: xs1), xs2, (r :: before), (l :: lines).
      split; [reflexivity|]. split; [simpl; congruence|].
      split; [constructor; assumption|].
      split.
      { cbn [printed]. rewrite printed_app, Hsays. unfold pause_after.
        destruct (x <? RETRY_LIMIT); reflexivity. }
      assert (Hr : forall tail,
                 rhythm (EvAcquire :: EvGet page r :: EvSay l :: EvRelease
                         :: pause_after x ++ tail)
                 = beats_of_failure x ++ rhythm tail).
      { intros tail. cbn [rhythm]. rewrite rhythm_app. reflexivity. }
      destruct Hcase as [(-> & -> & -> & Hrh)|(good & got & Hne & -> & Hs & -> & Hrh)].
      * left. repeat split; auto. rewrite Hr, Hrh. reflexivity.
      * right. exists good, got. repeat split; auto.
        rewrite Hr, Hrh. simpl. now rewrite app_assoc.
Qed.

Lemma fails_all_failed (page : Z) (before : list response) :
  forall xs lines,
    List.length before = List.length xs ->
    Forall2 (fun ar l => fails page (fst ar) (snd ar) l) (combine xs before) lines ->
    Forall failed before.
Proof.
  induction before as [|r before IH]; intros [|x xs] lines Hlen Hall;
    try discriminate; constructor.
  - inversion Hall as [|ar l rs ls Hf Hrest]; subst.
    exact (fails_not_succeeds page x r l Hf).
  - inversion Hall as [|ar l rs ls Hf Hrest]; subst.
    apply (IH xs ls); [simpl in Hlen; congruence|exact Hrest].
Qed.

Lemma fails_line_not_give_up (page attempt : Z) (r : response) (l : log) :
  fails page attempt r l -> l <> LogGiveUp page.
Proof. intros [e|status body _|e|data e _]; discriminate. Qed.

(** Every run of [fetch_page]. *)
Lemma fetch_page_run (page : Z) (net : list response) (tr : list event)
    (result : res (list row)) (rest : list response) :
  exec (fetch_page page) net = Some (tr, result, rest) ->
  exists xs1 xs2 before lines,
    [1; 2; 3] = xs1 ++ xs2
    /\ List.length before = List.length xs1
    /\ Forall2 (fun ar l => fails page (fst ar) (snd ar) l) (combine xs1 before) lines
    /\ ((xs2 = [] /\ net = before ++ rest /\ result = Ok []
         /\ printed tr = lines ++ [LogGiveUp page]
         /\ rhythm tr = flat_map beats_of_failure xs1)
        \/ (exists good got,
              xs2 <> [] /\ net = before ++ good :: rest /\ succeeds good got
              /\ result = Ok got
              /\ printed tr = lines
              /\ rhythm tr = flat_map beats_of_failure xs1 ++ [Request])).
Proof.
  unfold fetch_page. rewrite exec_bind.
  change (py_range 1 (RETRY_LIMIT + 1)) with [1; 2; 3].
  destruct (exec (for_each [1; 2; 3] (attempt_once page)) net) as [[[tr0 f] rest0]|] eqn:Hrun;
    [|discriminate].
  destruct (for_each_run page _ _ _ _ _ Hrun)
    as (xs1 & xs2 & before & lines & Hxs & Hlen & Hall & Hsays & Hcase).
  intros Hex. exists xs1, xs2, before, lines.
  split; [exact Hxs|]. split; [exact Hlen|]. split; [exact Hall|].
  destruct Hcase as [(-> & -> & -> & Hrh)|(good & got & Hne & -> & Hs & -> & Hrh)];
    simpl in Hex; injection Hex as <- <- <-.
  - left. repeat split; auto.
    + rewrite printed_app, Hsays. reflexivity.
    + rewrite rhythm_app, Hrh. simpl. now rewrite app_nil_r.
  - right. exists good, got. rewrite app_nil_r. repeat split; auto.
Qed.

Lemma requests_of_failures (xs : list Z) (tail : list beat) :
  List.length
    (filter (fun b => match b with Request => true | _ => false end)
       (flat_map beats_of_failure xs ++ tail))
  = (List.length xs
     + List.length (filter (fun b => match b with Request => true | _ => false end) tail))%nat.
Proof.
  induction xs as [|x xs IH]; [reflexivity|].
  cbn [flat_map]. unfold beats_of_failure at 1, pause_after.
  destruct (x <? RETRY_LIMIT); simpl; rewrite IH; reflexivity.
Qed.

(** X3: whatever the responses, a run of [fetch_page] is one of two: fewer
    than [RETRY_LIMIT] failed responses followed by a successful one, whose
    rows it returns after one request for each of these responses and without
    the give-up line; or exactly [RETRY_LIMIT] failed responses, after which
    it prints the give-up line and returns the empty list.  The responses
    that follow are left untouched. *)
Theorem fetch_page_every_run (page : Z) (net : list response) (tr : list event)
    (result : res (list row)) (rest : list response) :
  exec (fetch_page page) net = Some (tr, result, rest) ->
  (exists before good got,
      net = before ++ good :: rest
      /\ Z.of_nat (List.length before) < RETRY_LIMIT
      /\ Forall failed before
      /\ succeeds good got
      /\ result = Ok got
      /\ requests tr = S (List.length before)
      /\ ~ In (LogGiveUp page) (printed tr))
  \/ (exists before,
        net = before ++ rest
        /\ Z.of_nat (List.length before) = RETRY_LIMIT
        /\ Forall failed before
        /\ result = Ok []
        /\ Z.of_nat (requests tr) = RETRY_LIMIT
        /\ In (LogGiveUp page) (printed tr)).
Proof.
  intros Hex.
  destruct (fetch_page_run page net tr result rest Hex)
    as (xs1 & xs2 & before & lines & Hxs & Hlen & Hall & Hcase).
  pose proof (fails_all_failed page before xs1 lines Hlen Hall) as Hfailed.
  assert (Hsplit : (List.length xs1 + List.length xs2 = 3)%nat).
  { rewrite <- length_app, <- Hxs. reflexivity. }
  destruct Hcase as [(-> & -> & -> & Hsays & Hrh)|(good & got & Hne & -> & Hs & -> & Hsays & Hrh)].
  - right. exists before. simpl in Hsplit.
    split; [reflexivity|]. split; [unfold RETRY_LIMIT; lia|]. split; [exact Hfailed|].
    split; [reflexivity|].
    split.
    + unfold requests. rewrite Hrh, <- (app_nil_r (flat_map _ _)), requests_of_failures.
      simpl. unfold RETRY_LIMIT. lia.
    + rewrite Hsays. apply in_or_app. right. now left.
  - left. exists before, good, got.
    split; [reflexivity|].
    split.
    { destruct xs2; [congruence|]. simpl in Hsplit. unfold RETRY_LIMIT. lia. }
    split; [exact Hfailed|]. split; [exact Hs|]. split; [reflexivity|].
    split.
    + unfold requests. rewrite Hrh, requests_of_failures. simpl. lia.
    + rewrite Hsays. intros Hin.
      assert (Hno : forall xs bs ls,
                 Forall2 (fun ar l => fails page (fst ar) (snd ar) l) (combine xs bs) ls ->
                 ~ In (LogGiveUp page) ls).
      { clear. intros xs bs ls H. induction H as [|ar l rs ls' Hf _ IH]; [easy|].
        intros [->|Hin]; [|auto].
        exact (fails_line_not_give_up _ _ _ _ Hf eq_refl). }
      exact (Hno _ _ _ Hall Hin).
Qed.

Lemma attempts_split (xs1 xs2 : list Z) :
  [1; 2; 3] = xs1 ++ xs2 ->
  (xs1 = [] /\ xs2 = [1; 2; 3]) \/ (xs1 = [1] /\ xs2 = [2; 3])
  \/ (xs1 = [1; 2] /\ xs2 = [3]) \/ (xs1 = [1; 2; 3] /\ xs2 = []).
Proof.
  destruct xs1 as [|a xs1]; simpl; intros H; [left; auto|].
  injection H as <- H. destruct xs1 as [|b xs1]; simpl in H; [right; left; auto|].
  injection H as <- H. destruct xs1 as [|c xs1]; simpl in H; [right; right; left; auto|].
  injection H as <- H. destruct xs1; [|discriminate].
  right; right; right. auto.
Qed.

(** X4: a run of [fetch_page] makes at least one request and at most
    [RETRY_LIMIT], consumes exactly one response for each request, and sleeps
    [RETRY_DELAY] seconds between two requests and at no other time:
    [RETRY_DELAY * (requests - 1)] seconds in all, never more than
    [RETRY_DELAY * (RETRY_LIMIT - 1)]. *)
Theorem fetch_page_bounds (page : Z) (net : list response) (tr : list event)
    (result : res (list row)) (rest : list response) :
  exec (fetch_page page) net = Some (tr, result, rest) ->
  1 <= Z.of_nat (requests tr) <= RETRY_LIMIT
  /\ List.length net = (requests tr + List.length rest)%nat
  /\ slept tr = RETRY_DELAY * (Z.of_nat (requests tr) - 1)
  /\ slept tr <= RETRY_DELAY * (RETRY_LIMIT - 1).
Proof.
  intros Hex.
  destruct (fetch_page_run page net tr result rest Hex)
    as (xs1 & xs2 & before & lines & Hxs & Hlen & _ & Hcase).
  assert (Hnet : forall tail, List.length (before ++ tail)
                              = (List.length xs1 + List.length tail)%nat).
  { intros tail. rewrite length_app. lia. }
  unfold slept, requests.
  destruct Hcase as [(-> & -> & _ & _ & ->)|(good & got & Hne & -> & _ & _ & _ & ->)];
    rewrite Hnet;
    destruct (attempts_split _ _ Hxs) as [[-> H]|[[-> H]|[[-> H]|[-> H]]]];
    try discriminate; try congruence;
    cbn; repeat split; reflexivity || discriminate.
Qed.

Lemma combine_prefix {X Y : Type} (xs1 xs2 : list X) (ys : list Y) :
  List.length ys = List.length xs1 -> combine (xs1 ++ xs2) ys = combine xs1 ys.
Proof.
  revert ys. induction xs1 as [|x xs1 IH]; intros [|y ys] H; try discriminate;
    simpl in *.
  - now destruct xs2.
  - now rewrite IH by congruence.
Qed.

(** X5: [fetch_page] prints one line for each failed attempt, in order,
    which carries the page, the status or the exception, and the number of
    the attempt counted from 1; a successful attempt prints nothing, and the
    give-up line comes last, after [RETRY_LIMIT] failures and only then. *)
Theorem fetch_page_logs (page : Z) (net : list response) (tr : list event)
    (result : res (list row)) (rest : list response) :
  exec (fetch_page page) net = Some (tr, result, rest) ->
  exists before lines,
    Forall2 (fun numbered l => fails page (fst numbered) (snd numbered) l)
      (combine (py_range 1 (RETRY_LIMIT + 1)) before) lines
    /\ List.length lines = List.length before
    /\ ((exists good got,
           net = before ++ good :: rest /\ succeeds good got /\ result = Ok got
           /\ printed tr = lines)
        \/ (net = before ++ rest /\ Z.of_nat (List.length before) = RETRY_LIMIT
            /\ result = Ok []
            /\ printed tr = lines ++ [LogGiveUp page])).
Proof.
  intros Hex.
  destruct (fetch_page_run page net tr result rest Hex)
    as (xs1 & xs2 & before & lines & Hxs & Hlen & Hall & Hcase).
  exists before, lines.
  change (py_range 1 (RETRY_LIMIT + 1)) with [1; 2; 3].
  rewrite Hxs, (combine_prefix xs1 xs2 before Hlen).
  split; [exact Hall|].
  split.
  { rewrite <- (Forall2_length Hall), length_combine. lia. }
  destruct Hcase as [(-> & -> & -> & Hsays & _)|(good & got & _ & -> & Hs & -> & Hsays & _)].
  - right. repeat split; trivial.
    rewrite app_nil_r in Hxs. rewrite Hlen, <- Hxs. reflexivity.
  - left. exists good, got. auto.
Qed.

(** ** What a page task requests and prints *)

Lemma minds_bind {A B : Type} (page : Z) (p : prog A) (f : A -> prog B) :
  minds page p -> (forall a, minds page (f a)) -> minds page (bind p f).
Proof.
  intros Hp Hf. induction p as [a|k IH|k IH|page' k IH|d k IH|l k IH]; simpl in *; auto.
  - destruct Hp as [-> Hk]. split; [reflexivity|]. intros r. apply IH, Hk.
  - destruct Hp as [Hl Hk]. split; [exact Hl|]. apply IH, Hk.
Qed.

Lemma attempt_once_minds (page attempt : Z) : minds page (attempt_once page attempt).
Proof.
  unfold attempt_once, and_then, async_with_semaphore, try_except, request. simpl.
  split; [reflexivity|]. intros [e|status body]; simpl.
  - repeat split. destruct (attempt <? RETRY_LIMIT); simpl; trivial.
  - destruct (status =? 200).
    + match goal with
      | |- context [match ?x with Ok _ => _ | Raise _ => _ end] => destruct x
      end; simpl; repeat split.
      destruct (attempt <? RETRY_LIMIT); simpl; trivial.
    + simpl. repeat split. destruct (attempt <? RETRY_LIMIT); simpl; trivial.
Qed.

Lemma for_each_minds (page : Z) (xs : list Z) :
  minds page (for_each xs (attempt_once page)).
Proof.
  induction xs as [|x xs IH]; cbn [for_each]; [exact I|].
  unfold and_then. apply minds_bind; [apply attempt_once_minds|].
  intros [|got|e]; simpl; trivial.
Qed.

Lemma fetch_page_minds (page : Z) : minds page (fetch_page page).
Proof.
  unfold fetch_page. apply minds_bind; [apply for_each_minds|].
  intros [|got|e]; simpl; auto.
Qed.

Lemma minds_exec {A : Type} (page : Z) (p : prog A) :
  forall net tr a rest,
    minds page p -> exec p net = Some (tr, a, rest) -> Forall (minding page) tr.
Proof.
  induction p as [a0|k IH|k IH|page' k IH|d k IH|l k IH]; intros net tr a rest Hm Hex;
    simpl in Hex.
  - injection Hex as <- <- <-. constructor.
  - destruct (exec k net) as [[[tr' a'] rest']|] eqn:Hk; [|discriminate].
    injection Hex as <- <- <-. constructor; [exact I|]. exact (IH _ _ _ _ Hm Hk).
  - destruct (exec k net) as [[[tr' a'] rest']|] eqn:Hk; [|discriminate].
    injection Hex as <- <- <-. constructor; [exact I|]. exact (IH _ _ _ _ Hm Hk).
  - destruct net as [|r net]; [discriminate|].
    destruct (exec (k r) net) as [[[tr' a'] rest']|] eqn:Hk; [|discriminate].
    injection Hex as <- <- <-. destruct Hm as [Hp Hm].
    constructor; [exact Hp|]. exact (IH r _ _ _ _ (Hm r) Hk).
  - destruct (exec k net) as [[[tr' a'] rest']|] eqn:Hk; [|discriminate].
    injection Hex as <- <- <-. constructor; [exact I|]. exact (IH _ _ _ _ Hm Hk).
  - destruct (exec k net) as [[[tr' a'] rest']|] eqn:Hk; [|discriminate].
    injection Hex as <- <- <-. destruct Hm as [Hl Hm].
    constructor; [exact Hl|]. exact (IH _ _ _ _ Hm Hk).
Qed.

Lemma minds_effect {A : Type} (page : Z) (c c' : prog A) (r : response) (dh : Z)
    (say : list log) :
  minds page c -> effect_of r c = Some (c', dh, say) ->
  minds page c' /\ Forall (page_line page) say.
Proof.
  destruct c as [a|k|k|page' k|d k|l k]; simpl; intros Hm H; try discriminate;
    injection H as <- <- <-; try (split; [exact Hm|constructor]).
  - destruct Hm as [_ Hm]. split; [apply Hm|constructor].
  - destruct Hm as [Hl Hm]. split; [exact Hm|]. constructor; [exact Hl|constructor].
Qed.

Lemma minding_steps (n : Z) (s s' : pool) :
  Forall (fun t => minds (t_page t) (t_code t)) (tasks s) ->
  steps n s s' ->
  Forall (fun t => minds (t_page t) (t_code t)) (tasks s').
Proof.
  intros Hm Hsteps. induction Hsteps as [s|s s1 s2 (i & r & Hstep) _ IH]; [exact Hm|].
  apply IH. clear IH.
  apply pool_step_cases in Hstep as (_ & l1 & t & l2 & Hts & Hcase).
  rewrite Hts in Hm. apply Forall_app in Hm as [H1 H2].
  inversion H2 as [|t' l' Ht H3]; subst.
  destruct Hcase as [(code' & dh & say & Heff & _ & ->)|(result & Hc & _ & ->)].
  - destruct (minds_effect _ _ _ _ _ _ Ht Heff) as [Hm' _].
    simpl. apply Forall_app. split; [exact H1|]. constructor; [exact Hm'|exact H3].
  - destruct result; simpl; apply Forall_app; (split; [exact H1|]);
      (constructor; [exact Ht|exact H3]).
Qed.

Lemma spawn_minds (n : Z) : Forall (fun t => minds (t_page t) (t_code t)) (tasks (spawn n)).
Proof.
  unfold spawn. simpl. apply Forall_forall. intros t Ht.
  apply in_map_iff in Ht as (page & <- & _). apply fetch_page_minds.
Qed.

(** X6: [fetch_page] requests no page but its own and every line it prints
    names that page, in a run on its own and as a task of the pool, in every
    state the pool reaches. *)
Theorem page_task_minds_its_page (page : Z) :
  (forall net tr result rest,
      exec (fetch_page page) net = Some (tr, result, rest) ->
      Forall (minding page) tr)
  /\ (forall n s,
        steps n (spawn n) s ->
        Forall (fun t => minds (t_page t) (t_code t)) (tasks s)).
Proof.
  split.
  - intros net tr result rest. apply minds_exec, fetch_page_minds.
  - intros n s. apply minding_steps, spawn_minds.
Qed.

(** ** The run as a whole *)

(** X7: when the directory is made and the page-count response carries a
    [meta.total] that is not an int (a float, a string, [None], a list or a
    dict), the run is aborted by a [TypeError] before any page is fetched, and
    that is its only outcome: the process exits with status 1. *)
Theorem total_must_be_an_int (w : world) (status : Z) (d m : list (string * pyval))
    (total : pyval) (u : unit) :
  mkdir_result w = Ok u ->
  page_count_response w = Resp status (Ok (PDict d)) ->
  lookup d "meta" = Some (PDict m) ->
  lookup m "total" = Some total ->
  (forall z, as_num total <> Some (NInt z)) ->
  main w (AbortedBeforeFetching TypeError)
  /\ (forall o, main w o -> o = AbortedBeforeFetching TypeError /\ exit_status o = 1).
Proof.
  intros Hmk Hresp Hmeta Htot Hnum.
  assert (Hstart : exists tr rest,
             exec (main_start (mkdir_result w)) [page_count_response w]
             = Some (tr, Raise TypeError, rest)).
  { rewrite Hmk, main_start_exec, Hresp. simpl. rewrite Hmeta. simpl. rewrite Htot. simpl.
    unfold page_count. destruct (as_num total) as [[z|f]|] eqn:Hn; simpl; eauto.
    now destruct (Hnum z). }
  destruct Hstart as (tr & rest & Hstart).
  split; [exact (main_stops_early w tr TypeError rest Hstart)|].
  intros o Hmain. rewrite (main_early_only w tr TypeError rest o Hstart Hmain). auto.
Qed.

Lemma no_pages_no_tasks (n : Z) : n <= 0 -> tasks (spawn n) = [].
Proof.
  intros Hn. unfold spawn, py_range. simpl.
  replace (Z.to_nat (n + 1 - 1)) with 0%nat by lia. reflexivity.
Qed.

Lemma no_tasks_no_steps (n : Z) (s s' : pool) :
  tasks s = [] -> steps n s s' -> s' = s.
Proof.
  intros Hs Hsteps. destruct Hsteps as [s|s s1 s2 (i & r & Hstep) _]; [reflexivity|].
  unfold pool_step in Hstep. rewrite Hs in Hstep.
  destruct (failure s); destruct i; discriminate.
Qed.

(** X8: with a total of zero (or less) the page count is zero (or less),
    [main] makes no task, and the run, when the directory is made and the
    writing of a file of no rows succeeds, completes with no row written; it
    has no other outcome. *)
Theorem empty_catalogue_writes_no_rows (w : world) (total status : Z)
    (d m : list (string * pyval)) (u u' : unit) :
  total <= 0 ->
  mkdir_result w = Ok u ->
  page_count_response w = Resp status (Ok (PDict d)) ->
  lookup d "meta" = Some (PDict m) ->
  lookup m "total" = Some (PInt total) ->
  csv_result w [] = Ok u' ->
  pages_for total PER_PAGE <= 0
  /\ tasks (spawn (pages_for total PER_PAGE)) = []
  /\ main w (Completed [])
  /\ (forall o, main w o -> o = Completed []).
Proof.
  intros Htotal Hmk Hresp Hmeta Htot Hcsv.
  set (n := pages_for total PER_PAGE).
  assert (Hn : n <= 0).
  { unfold n, pages_for, PER_PAGE.
    assert (total + 24 - 1 < 1 * 24) by lia.
    pose proof (Z.div_lt_upper_bound (total + 24 - 1) 24 1). lia. }
  assert (Hstart : exec (main_start (mkdir_result w)) [page_count_response w]
                   = Some ([EvGet 1 (Resp status (Ok (PDict d)));
                            EvSay (LogTotal (PInt total) (PInt n))], Ok n, [])).
  { rewrite Hmk, main_start_exec, Hresp, (get_total_pages_int status total d m Hmeta Htot).
    reflexivity. }
  pose proof (no_pages_no_tasks n Hn) as Hnone.
  split; [exact Hn|]. split; [exact Hnone|]. split.
  - pose proof (main_completes w _ n [] (spawn n) Hstart (steps_refl n _) eq_refl) as H.
    unfold finished, main_finish in H. rewrite Hnone in H.
    change (rows (spawn n)) with (@nil row) in H. rewrite Hcsv in H.
    exact (H eq_refl).
  - intros o Hmain.
    inversion Hmain as [w' tr e rest Hex|w' tr n' rest s e Hex Hsteps Hfail
                        |w' tr n' rest s Hex Hsteps Hfail Hfin]; subst.
    + congruence.
    + assert (n' = n) by congruence. subst n'.
      rewrite (no_tasks_no_steps n _ _ Hnone Hsteps) in Hfail. discriminate.
    + assert (n' = n) by congruence. subst n'.
      rewrite (no_tasks_no_steps n _ _ Hnone Hsteps). unfold main_finish.
      change (rows (spawn n)) with (@nil row). rewrite Hcsv. reflexivity.
Qed.




(** ** The rows that reach the CSV writer *)

Lemma parse_product_fits (p : pyval) (r : row) :
  parse_product p = Ok r -> fits_header r.
Proof.
  intros H. destruct p as [| | | | | |d]; try discriminate.
  destruct (parse_product_Ok d r H) as (_ & _ & _ & _ & _ & _ & Hkeys & _).
  exact Hkeys.
Qed.

Lemma fetch_page_fits (page : Z) (net : list response) (tr : list event)
    (got : list row) (rest : list response) :
  exec (fetch_page page) net = Some (tr, Ok got, rest) -> Forall fits_header got.
Proof.
  intros Hex.
  destruct (fetch_page_run page net tr (Ok got) rest Hex)
    as (xs1 & xs2 & before & lines & _ & _ & _ & Hcase).
  destruct Hcase as [(_ & _ & Hgot & _)|(good & got' & _ & _ & Hs & Hgot & _)];
    injection Hgot as ->; [constructor|].
  apply succeeds_iff in Hs as (d & items & _ & _ & Hm).
  apply res_map_Forall2 in Hm. clear - Hm.
  induction Hm as [|item r items' got'' Hr _ IH]; constructor; [|exact IH].
  exact (parse_product_fits item r Hr).
Qed.

Lemma gathered_rows_fit (n : Z) (s : pool) :
  steps n (spawn n) s -> Forall fits_header (rows s).
Proof.
  intros Hsteps.
  pose proof (sound_steps _ _ _ (sound_spawn n) Hsteps) as (Hok & _).
  pose proof (gathering_steps _ _ _ (sound_spawn n) (gathering_spawn n) Hsteps)
    as (_ & Htr & Htk & _ & Hperm).
  apply Forall_forall. intros r Hr.
  apply (Permutation_in _ Hperm) in Hr.
  apply in_concat in Hr as (l & Hl & Hr).
  apply in_map_iff in Hl as (t & <- & Ht).
  rewrite Forall_forall in Hok, Htr, Htk.
  unfold taken_rows in Hr. destruct (t_taken t) eqn:Htaken; [|easy].
  destruct (finished_task t (Hok t Ht) (Htr t Ht) (Htk t Ht Htaken))
    as (got & seen & tr & Hcode & Hex).
  unfold task_rows in Hr. rewrite Hcode in Hr.
  pose proof (fetch_page_fits _ _ _ _ _ Hex) as Hfit.
  rewrite Forall_forall in Hfit. auto.
Qed.

(** X10: every row that [main] hands to the CSV writer has the eighteen keys
    of [CSV_FIELDS], in that order: the writer meets neither a key it does not
    know nor a missing one. *)
Theorem written_rows_fit_header (w : world) (written : list row) :
  main w (Completed written) ->
  Forall (fun r => map fst r = CSV_FIELDS /\ List.length r = List.length CSV_FIELDS) written.
Proof.
  intros Hmain.
  assert (Hfit : Forall fits_header written).
  { inversion Hmain as [| |w' tr n rest s Hex Hsteps Hfail Hfin Hw Ho]; subst.
    unfold main_finish in Ho. destruct (csv_result w (rows s)); [|discriminate].
    injection Ho as <-. exact (gathered_rows_fit n s Hsteps). }
  apply Forall_forall. intros r Hr. rewrite Forall_forall in Hfit.
  pose proof (Hfit r Hr) as Hkeys. unfold fits_header in Hkeys.
  split; [exact Hkeys|]. now rewrite <- Hkeys, length_map.
Qed.

Lemma spawn_none_taken (n : Z) : filter t_taken (tasks (spawn n)) = [].
Proof.
  unfold spawn. simpl. induction (py_range 1 (n + 1)) as [|p l IH]; simpl; auto.
Qed.

Lemma laid_out_step (n : Z) (s s' : pool) (order : list task) :
  sound s -> gathering n s -> laid_out s order -> step n s s' ->
  exists order', laid_out s' order'.
Proof.
  intros (Hok & _) (_ & _ & Htk & _) [Hperm Hrows] (i & r & Hstep).
  apply pool_step_cases in Hstep as (_ & l1 & t & l2 & Hts & Hcase).
  rewrite Hts in Hperm, Htk, Hok. rewrite filter_app in Hperm. cbn [filter] in Hperm.
  apply Forall_app in Htk as [_ Htk]. inversion Htk as [|t0 l0 Ht _]; subst t0 l0.
  apply Forall_app in Hok as [_ Hok]. inversion Hok as [|t0 l0 Hsafe _]; subst t0 l0.
  destruct Hcase as [(code' & dh & say & Heff & _ & ->)|(result & Hc & Htaken & ->)].
  - exists order.
    split; [|exact Hrows]. cbn [tasks]. rewrite filter_app. cbn [filter t_taken].
    destruct (t_taken t) eqn:Htaken; [|exact Hperm].
    destruct (Ht eq_refl) as [result Hc]. rewrite Hc in Heff. discriminate.
  - rewrite Htaken in Hperm.
    destruct Hsafe as (q & m & Hs & _). rewrite Hc in Hs. simpl in Hs.
    destruct Hs as [_ [got ->]].
    exists (order ++ [mkTask (t_page t) (t_code t) (t_held t) true]).
    split.
    + cbn [tasks]. rewrite filter_app. cbn [filter t_taken].
      apply Permutation_trans with
        (l' := mkTask (t_page t) (t_code t) (t_held t) true :: order);
        [apply Permutation_sym, Permutation_cons_append|].
      now apply Permutation_cons_app.
    + cbn [rows]. rewrite map_app, List.concat_app, Hrows.
      unfold task_rows at 2. cbn [map t_code List.concat]. rewrite Hc, app_nil_r.
      reflexivity.
Qed.

Lemma laid_out_steps (n : Z) (s : pool) :
  steps n (spawn n) s -> exists order, laid_out s order.
Proof.
  intros Hsteps.
  assert (H : forall s0 s1,
             steps n s0 s1 -> steps n (spawn n) s0 ->
             (exists order, laid_out s0 order) -> exists order, laid_out s1 order).
  { clear. intros s0 s1 Hrun. induction Hrun as [s0|s0 s1 s2 Hstep Hrun IH]; [auto|].
    intros Hreach [order Hlaid]. apply IH.
    - clear - Hreach Hstep. induction Hreach as [s|s s' s'' Hs Hrest IH'].
      + apply steps_next with (s' := s1); [exact Hstep|constructor].
      + apply steps_next with (s' := s'); [exact Hs|]. apply IH'. exact Hstep.
    - destruct (laid_out_step n s0 s1 order
                  (sound_steps _ _ _ (sound_spawn n) Hreach)
                  (gathering_steps _ _ _ (sound_spawn n) (gathering_spawn n) Hreach)
                  Hlaid Hstep) as (order' & Hlaid').
      eauto. }
  apply (H _ _ Hsteps (steps_refl n _)).
  exists []. split; [rewrite spawn_none_taken; constructor|reflexivity].
Qed.

(** X11: in every state the pool reaches, [rows] is the lists of the tasks
    taken so far laid end to end: the rows of one page stay together and in
    the order [fetch_page] returned them, [done] counts those lists, and at
    the end of the loop they are the lists of the pages 1..total_pages in
    some order. *)
Theorem rows_keep_each_page_together (n : Z) (s : pool) :
  steps n (spawn n) s ->
  exists taken_order,
    Permutation taken_order (filter t_taken (tasks s))
    /\ rows s = List.concat (map task_rows taken_order)
    /\ Z.of_nat (List.length taken_order) = done s
    /\ Forall (fun t => exists seen tr,
                  exec (fetch_page (t_page t)) seen = Some (tr, Ok (task_rows t), []))
         taken_order
    /\ (finished s = true -> Permutation (map t_page taken_order) (py_range 1 (n + 1))).
Proof.
  intros Hsteps.
  pose proof (sound_steps _ _ _ (sound_spawn n) Hsteps) as Hsound.
  pose proof (gathering_steps _ _ _ (sound_spawn n) (gathering_spawn n) Hsteps) as Hg.
  destruct (laid_out_steps n s Hsteps) as [order [Hperm Hrows]].
  pose proof Hsound as (Hok & _).
  pose proof Hg as (Hpages & Htr & Htk & Hdone & _).
  exists order.
  split; [exact Hperm|]. split; [exact Hrows|].
  split; [rewrite Hdone, (Permutation_length Hperm); reflexivity|].
  split.
  { apply Forall_forall. intros t Ht.
    apply (Permutation_in _ Hperm), filter_In in Ht as [Hin Htaken].
    rewrite Forall_forall in Hok, Htr, Htk.
    destruct (finished_task t (Hok t Hin) (Htr t Hin) (Htk t Hin Htaken))
      as (got & seen & tr & Hcode & Hex).
    exists seen, tr. unfold task_rows. rewrite Hcode. exact Hex. }
  intros Hfin. unfold finished in Hfin. rewrite (filter_all _ _ Hfin) in Hperm.
  rewrite <- Hpages. now apply Permutation_map.
Qed.

(** ** The progress lines *)

Lemma progress_lines_app (o o' : list log) :
  progress_lines (o ++ o') = progress_lines o ++ progress_lines o'.
Proof.
  induction o as [|l o IH]; simpl; [reflexivity|].
  destruct l; simpl; rewrite IH; reflexivity.
Qed.

Lemma page_lines_no_progress (page : Z) (say : list log) :
  Forall (page_line page) say -> progress_lines say = [].
Proof.
  induction 1 as [|l say Hl _ IH]; [reflexivity|].
  destruct l; simpl in *; try contradiction; exact IH.
Qed.

Lemma py_range_snoc (d : Z) :
  0 <= d -> py_range 1 (d + 1 + 1) = py_range 1 (d + 1) ++ [d + 1].
Proof.
  intros Hd. unfold py_range.
  replace (Z.to_nat (d + 1 + 1 - 1)) with (S (Z.to_nat (d + 1 - 1))) by lia.
  rewrite seq_S, map_app. f_equal. cbn [map]. f_equal. lia.
Qed.

Lemma reported_spawn (n : Z) : reported n (spawn n).
Proof.
  split; [reflexivity|]. split; [constructor|]. simpl. lia.
Qed.

Lemma reported_step (n : Z) (s s' : pool) :
  Forall (fun t => minds (t_page t) (t_code t)) (tasks s) ->
  0 <= done s ->
  reported n s -> step n s s' -> reported n s'.
Proof.
  intros Hm Hdone (Hmarks & Htotal & Hlast) (i & r & Hstep).
  apply pool_step_cases in Hstep as (_ & l1 & t & l2 & Hts & Hcase).
  rewrite Hts in Hm. apply Forall_app in Hm as [_ H2].
  inversion H2 as [|t' l' Ht _]; subst.
  destruct Hcase as [(code' & dh & say & Heff & _ & ->)|(result & Hc & _ & ->)].
  - destruct (minds_effect _ _ _ _ _ _ Ht Heff) as [_ Hsay].
    unfold reported. simpl.
    rewrite progress_lines_app, (page_lines_no_progress _ _ Hsay), app_nil_r.
    auto.
  - destruct result as [got|e]; [|unfold reported; simpl; auto].
    unfold reported, progress. simpl. fold (due n (done s + 1)).
    rewrite (py_range_snoc _ Hdone), filter_app. simpl.
    destruct (due n (done s + 1)) eqn:Hdue.
    + rewrite progress_lines_app, map_app, Hmarks. simpl.
      split; [reflexivity|].
      split; [apply Forall_app; split; [exact Htotal|repeat constructor]|].
      intros _ _. eauto.
    + rewrite app_nil_r. split; [exact Hmarks|]. split; [exact Htotal|]. discriminate.
Qed.

Lemma reported_steps (n : Z) (s : pool) :
  steps n (spawn n) s -> reported n s.
Proof.
  intros Hsteps.
  assert (H : forall s0 s1,
             steps n s0 s1 -> steps n (spawn n) s0 -> reported n s0 -> reported n s1).
  { clear. intros s0 s1 Hrun. induction Hrun as [s0|s0 s1 s2 Hstep Hrun IH]; [auto|].
    intros Hreach Hrep. apply IH.
    - clear - Hreach Hstep. induction Hreach as [s|s s' s'' Hs Hrest IH'].
      + apply steps_next with (s' := s1); [exact Hstep|constructor].
      + apply steps_next with (s' := s'); [exact Hs|]. apply IH'. exact Hstep.
    - apply (reported_step n s0 s1); trivial.
      + exact (minding_steps n _ _ (spawn_minds n) Hreach).
      + pose proof (gathering_steps _ _ _ (sound_spawn n) (gathering_spawn n) Hreach)
          as (_ & _ & _ & Hd & _).
        rewrite Hd. lia. }
  exact (H _ _ Hsteps (steps_refl n _) (reported_spawn n)).
Qed.

(** X12: in every state the pool reaches, the progress lines printed so far
    are those for the counts 1..done that are multiples of 100 or equal to
    [total_pages], in increasing order, each with [total_pages] as its total;
    at the end of a run of at least one page the last of them reports
    total_pages/total_pages pages and the number of rows gathered. *)
Theorem progress_is_reported (n : Z) (s : pool) :
  steps n (spawn n) s ->
  map (fun line => fst (fst line)) (progress_lines (out s))
  = filter (due n) (py_range 1 (done s + 1))
  /\ Forall (fun line => snd (fst line) = n) (progress_lines (out s))
  /\ (finished s = true -> 1 <= n ->
      exists earlier,
        progress_lines (out s) = earlier ++ [(n, n, List.length (rows s))]).
Proof.
  intros Hsteps.
  destruct (reported_steps n s Hsteps) as (Hmarks & Htotal & Hlast).
  split; [exact Hmarks|]. split; [exact Htotal|].
  intros Hfin Hn.
  pose proof (gathering_steps _ _ _ (sound_spawn n) (gathering_spawn n) Hsteps)
    as (Hpages & _ & _ & Hd & _).
  assert (Hdone : done s = n).
  { unfold finished in Hfin. rewrite Hd, (filter_all _ _ Hfin).
    rewrite <- (length_map t_page), Hpages, py_range_length. lia. }
  rewrite Hdone in Hlast. apply Hlast; [|exact Hn].
  unfold due. rewrite Z.eqb_refl. apply orb_true_r.
Qed.

(** ** The semaphore at the end of a run, and in a small run *)

Lemma ended_holds_nothing (t : task) :
  task_ok t -> (exists result, t_code t = Ret result) -> t_held t = 0.
Proof.
  intros (q & n & Hs & ->) [result Hc]. rewrite Hc in Hs. simpl in Hs.
  destruct Hs as [-> _]. reflexivity.
Qed.

Lemma waiting_holds_nothing (t : task) (k : prog (res (list row))) :
  task_ok t -> t_code t = Acquire k -> t_held t = 0.
Proof.
  intros (q & n & Hs & ->) Hc. rewrite Hc in Hs. simpl in Hs.
  destruct Hs as [-> _]. reflexivity.
Qed.

Lemma permits_held_le (ts : list task) :
  Forall task_ok ts -> 0 <= permits_held ts <= Z.of_nat (List.length ts).
Proof.
  induction 1 as [|t ts Ht _ IH]; [unfold permits_held; simpl; lia|].
  rewrite permits_held_cons. pose proof (task_ok_held t Ht).
  change (List.length (t :: ts)) with (S (List.length ts)). lia.
Qed.

(** X13: a page task that has ended holds no permit, and when the loop of
    [main] is over the semaphore has all its [CONCURRENCY] permits back. *)
Theorem permits_all_returned (n : Z) (s : pool) :
  steps n (spawn n) s ->
  Forall (fun t => (exists result, t_code t = Ret result) -> t_held t = 0) (tasks s)
  /\ (finished s = true -> held s = 0 /\ permits s = CONCURRENCY).
Proof.
  intros Hsteps.
  pose proof (sound_steps _ _ _ (sound_spawn n) Hsteps) as (Hok & Hsum & _).
  pose proof (gathering_steps _ _ _ (sound_spawn n) (gathering_spawn n) Hsteps)
    as (_ & _ & Htk & _).
  assert (Hended : Forall (fun t => (exists result, t_code t = Ret result) -> t_held t = 0)
                     (tasks s)).
  { rewrite Forall_forall in *. intros t Ht. apply ended_holds_nothing. auto. }
  split; [exact Hended|].
  intros Hfin. unfold finished in Hfin. rewrite forallb_forall in Hfin.
  assert (Hzero : held s = 0).
  { unfold held. rewrite Forall_forall in Hended, Htk.
    assert (H : forall t, In t (tasks s) -> t_held t = 0) by auto.
    clear - H. induction (tasks s) as [|t ts IH]; [reflexivity|].
    rewrite permits_held_cons, (H t (or_introl eq_refl)), IH; [reflexivity|].
    intros t' Ht'. apply H. now right. }
  split; [exact Hzero|]. lia.
Qed.

(** X14: with at most [CONCURRENCY] pages the semaphore never makes a task
    wait: in every state of the run at least [CONCURRENCY - total_pages]
    permits are free, and a task that asks for a permit finds one. *)
Theorem small_run_never_waits (n : Z) (s : pool) :
  n <= CONCURRENCY ->
  steps n (spawn n) s ->
  CONCURRENCY - Z.max 0 n <= permits s
  /\ (forall i t k r,
        nth_error (tasks s) i = Some t -> t_code t = Acquire k ->
        0 < permits s /\ exists s', pool_step n i r s = Some s').
Proof.
  intros Hn Hsteps.
  pose proof (sound_steps _ _ _ (sound_spawn n) Hsteps) as (Hok & Hsum & Hpos & Hnone).
  pose proof (gathering_steps _ _ _ (sound_spawn n) (gathering_spawn n) Hsteps)
    as (Hpages & _).
  assert (Hlen : Z.of_nat (List.length (tasks s)) = Z.max 0 n).
  { rewrite <- (length_map t_page), Hpages, py_range_length. lia. }
  split.
  { pose proof (permits_held_le _ Hok). unfold held in Hsum. lia. }
  intros i t k r Hi Hc.
  assert (Hfree : 0 < permits s).
  { apply nth_error_split in Hi as (l1 & l2 & Hts & _).
    assert (Hwait : t_held t = 0).
    { apply (waiting_holds_nothing t k); [|exact Hc].
      rewrite Forall_forall in Hok. apply Hok. rewrite Hts. apply in_elt. }
    rewrite Hts in Hok, Hlen. unfold held in Hsum. rewrite Hts in Hsum.
    apply Forall_app in Hok as [Hok1 Hok2]. inversion Hok2 as [|t' l' _ Hok3]; subst.
    rewrite permits_held_app, permits_held_cons, Hwait in Hsum.
    pose proof (permits_held_le _ Hok1). pose proof (permits_held_le _ Hok3).
    rewrite length_app in Hlen. simpl in Hlen. lia. }
  split; [exact Hfree|].
  unfold pool_step. rewrite Hnone, Hi, Hc.
  apply Z.ltb_lt in Hfree. rewrite Hfree. eauto.
Qed.

End FurtherProperties.

(** * Concrete runs *)

#[local] Existing Instance unused_builtins.

Lemma run_schedule_steps (n : Z) (schedule : list (nat * response)) :
  forall s s', run_schedule n schedule s = Some s' -> steps n s s'.
Proof.
  induction schedule as [|[i r] schedule IH]; intros s s' H; simpl in H.
  - injection H as <-. constructor.
  - destruct (pool_step n i r s) as [s1|] eqn:Hstep; [|discriminate].
    apply steps_next with (s' := s1); [now exists i, r|now apply IH].
Qed.

Lemma float_0_neq_100 : 0%float <> 100%float.
Proof.
  intros H. apply (f_equal Prim2SF) in H. vm_compute in H. discriminate.
Qed.

Lemma failed_timeout : failed (NetFail TimeoutError).
Proof. apply (fails_not_succeeds 0 0 _ _ (fails_transport 0 0 TimeoutError)). Qed.

Lemma failed_503 : failed (Resp 503 (Raise JSONDecodeError)).
Proof.
  apply (fails_not_succeeds 0 0 _ (LogHttp 0 503 0)). constructor. discriminate.
Qed.

Lemma failed_null_products : failed null_products_page.
Proof.
  apply (fails_not_succeeds 0 0 _ (LogError 0 TypeError 0)).
  now apply fails_shape.
Qed.

(** The page count of the catalogue: 62633 items, 24 a page. *)
Lemma page_count_is_ceiling_witness :
  0 <= 62633 /\ 0 < 24
  /\ pages_for 62633 24 = Qceiling (inject_Z 62633 / inject_Z 24)
  /\ pages_for 62633 24 = 2610.
Proof.
  split; [lia|]. split; [lia|].
  destruct (page_count_is_ceiling 62633 24) as (H1 & _ & H3); [lia|lia|].
  split; assumption.
Defined.

(** Retail 80 against old 100 is a discount of 20.0. *)
Lemma discount_pct_is_guarded_witness :
  exists r,
    parse_product shirt = Ok r
    /\ lookup r "discount_pct" = Some (PFloat 20)
    /\ py_truediv (PInt 80) (PInt 100) = Ok 0x1.999999999999ap-1%float.
Proof.
  destruct (parse_product shirt) as [r|e] eqn:Hr; [|vm_compute in Hr; discriminate].
  exists r.
  destruct (discount_pct_is_guarded _ r Hr) as (retail & old & pct & _ & _ & Hp & _).
  vm_compute in Hr. injection Hr as <-.
  repeat split; reflexivity.
Defined.

(** Retail 100 against old 80 is no discount. *)
Example discount_of_dearer_shirt :
  exists r, parse_product dearer_shirt = Ok r /\ lookup r "discount_pct" = Some (PFloat 0).
Proof. eexists. split; reflexivity. Qed.

(** With a retail price of 0 and an old price of 100, old > retail holds and
    the formula of the specification gives 100.0, but [parse_product] puts
    0.0: the guard of line 78 takes a price of zero for a missing one. *)
Lemma discount_of_free_item_is_zero :
  exists r,
    parse_product free_shirt = Ok r
    /\ lookup r "retail_price" = Some (PInt 0)
    /\ lookup r "old_price" = Some (PInt 100)
    /\ py_gt (PInt 100) (PInt 0) = Ok true
    /\ lookup r "discount_pct" = Some (PFloat 0)
    /\ claimed_discount (PInt 0) (PInt 100) = Ok 100%float
    /\ 0%float <> 100%float.
Proof.
  eexists. repeat split; try reflexivity. apply float_0_neq_100.
Qed.

(** A record with every nested field absent or null; a record whose offer
    is there with a null seller and prices of 80 against 100; and a record
    whose seller is there with a null name and a rating. *)
Lemma parse_product_tolerates_missing_witness :
  absent_or_null bare_record "default_offer"
  /\ absent_or_null (nested (dict_get sellerless_record "default_offer" PNone)) "seller"
  /\ (exists r,
        parse_product (PDict bare_record) = Ok r
        /\ map fst r = CSV_FIELDS
        /\ lookup r "seller_name" = Some (PStr "")
        /\ lookup r "product_url" = Some (PStr "https://birmarket.az/products/"))
  /\ (exists r,
        parse_product (PDict sellerless_record) = Ok r
        /\ map fst r = CSV_FIELDS
        /\ lookup r "seller_rating" = Some PNone
        /\ lookup r "seller_name" = Some (PStr "")
        /\ lookup r "discount_pct" = Some (PFloat 20))
  /\ (exists r,
        parse_product (PDict nameless_record) = Ok r
        /\ map fst r = CSV_FIELDS
        /\ lookup r "seller_rating" = Some (PInt 5)
        /\ lookup r "seller_name" = Some (PStr "")).
Proof.
  assert (Hd0 : discount PNone PNone = Ok 0%float) by reflexivity.
  assert (Hd20 : discount (PInt 80) (PInt 100) = Ok 20%float) by (vm_compute; reflexivity).
  split; [right; reflexivity|]. split; [right; reflexivity|].
  split; [|split].
  - destruct (parse_product_tolerates_missing bare_record
                (or_introl (or_intror eq_refl)) (or_introl (or_introl eq_refl))
                (or_introl (or_introl eq_refl)) (or_introl (or_introl eq_refl))
                (or_introl (or_intror eq_refl)) (or_introl (or_introl eq_refl)))
      as (_ & _ & Hrow).
    destruct (Hrow 0%float Hd0)
      as (r & Hr & Hkeys & _ & _ & _ & _ & Hname & _ & _ & _ & _ & Hurl).
    exists r. split; [exact Hr|]. split; [exact Hkeys|].
    split; [exact (Hname (or_introl eq_refl))|exact (Hurl eq_refl)].
  - destruct (parse_product_tolerates_missing sellerless_record
                (or_intror (ex_intro _ _ eq_refl)) (or_introl (or_intror eq_refl))
                (or_introl (or_introl eq_refl)) (or_introl (or_intror eq_refl))
                (or_introl (or_introl eq_refl)) (or_introl (or_introl eq_refl)))
      as (_ & _ & Hrow).
    destruct (Hrow 20%float Hd20)
      as (r & Hr & Hkeys & _ & Hpct & _ & Hseller & Hname & _).
    exists r. split; [exact Hr|]. split; [exact Hkeys|].
    split; [exact (proj1 (Hseller (or_intror eq_refl)))|].
    split; [exact (Hname (or_introl eq_refl))|exact Hpct].
  - destruct (parse_product_tolerates_missing nameless_record
                (or_intror (ex_intro _ _ eq_refl)) (or_intror (ex_intro _ _ eq_refl))
                (or_introl (or_intror eq_refl)) (or_introl (or_introl eq_refl))
                (or_introl (or_introl eq_refl)) (or_introl (or_introl eq_refl)))
      as (_ & _ & Hrow).
    destruct (Hrow 0%float Hd0)
      as (r & Hr & Hkeys & _ & _ & _ & _ & Hname & _).
    exists r. split; [exact Hr|]. split; [exact Hkeys|].
    split; [|exact (Hname (or_intror eq_refl))].
    vm_compute in Hr. injection Hr as <-. reflexivity.
Defined.

(** Three attempts that fail in three ways. *)
Lemma fetch_page_gives_up_witness :
  Forall failed [NetFail TimeoutError; Resp 503 (Raise JSONDecodeError); null_products_page]
  /\ exists tr,
       exec (fetch_page 5)
         [NetFail TimeoutError; Resp 503 (Raise JSONDecodeError); null_products_page]
       = Some (tr ++ [EvSay (LogGiveUp 5)], Ok [], [])
       /\ Z.of_nat (requests tr) = 3.
Proof.
  assert (H : Forall failed
                [NetFail TimeoutError; Resp 503 (Raise JSONDecodeError); null_products_page]).
  { repeat constructor;
      [apply failed_timeout|apply failed_503|apply failed_null_products]. }
  split; [exact H|].
  destruct (fetch_page_gives_up 5
              [NetFail TimeoutError; Resp 503 (Raise JSONDecodeError); null_products_page]
              [] eq_refl H) as (tr & Hex & Hreq & _).
  exists tr. rewrite app_nil_r in Hex. split; assumption.
Defined.

(** One failure, then a page with one product: the row of the shirt, after
    two requests. *)
Lemma fetch_page_first_success_witness :
  Z.of_nat 1 < RETRY_LIMIT
  /\ py_iter (dict_get [("products", PList [shirt])] "products" (PList [])) = Ok [shirt]
  /\ parse_product shirt = Ok shirt_row
  /\ lookup shirt_row "id" = Some (PInt 7)
  /\ lookup shirt_row "discount_pct" = Some (PFloat 20)
  /\ exists tr,
       exec (fetch_page 5) [NetFail TimeoutError; one_shirt_page; one_shirt_page]
       = Some (tr ++ [EvAcquire; EvGet 5 one_shirt_page; EvRelease],
               Ok [shirt_row], [one_shirt_page])
       /\ requests tr = 1%nat.
Proof.
  assert (Hrow : parse_product shirt = Ok shirt_row) by (vm_compute; reflexivity).
  split; [reflexivity|]. split; [reflexivity|]. split; [exact Hrow|].
  split; [reflexivity|]. split; [reflexivity|].
  destruct (fetch_page_first_success 5 1 [NetFail TimeoutError]
              [("products", PList [shirt])] [shirt] [shirt_row] [one_shirt_page]
              eq_refl eq_refl (Forall_cons _ failed_timeout (Forall_nil _)) eq_refl
              (Forall2_cons _ _ Hrow (Forall2_nil _)))
    as (tr & Hex & Hreq & _).
  exists tr. split; assumption.
Defined.

(** A run with a retry: the sleep comes after the release. *)
Lemma sleep_holds_no_permit_witness :
  exists tr result,
    exec (fetch_page 5) [NetFail TimeoutError; one_shirt_page] = Some (tr, result, [])
    /\ rhythm tr = [Request; Pause RETRY_DELAY; Request]
    /\ permits_in_hand tr = 0
    /\ forall pre d post, tr = pre ++ EvSleep d :: post -> permits_in_hand pre = 0.
Proof.
  destruct (exec (fetch_page 5) [NetFail TimeoutError; one_shirt_page])
    as [[[tr result] rest]|] eqn:Hex; [|vm_compute in Hex; discriminate].
  destruct (sleep_holds_no_permit 5 _ tr result rest Hex) as (Hsleep & _ & Hend).
  vm_compute in Hex. injection Hex as <- <- <-.
  do 2 eexists. split; [reflexivity|]. split; [reflexivity|].
  split; [exact Hend|]. intros pre d post E. exact (proj1 (Hsleep pre d post E)).
Defined.

(** A body that parses, with status 200, whose [products] is null: line 124
    raises inside the [try], so each attempt is logged as an error and
    retried, and the page is given up after three requests. *)
Lemma null_products_counts_as_failure :
  null_products_page = Resp 200 (Ok (PDict [("products", PNone)]))
  /\ failed null_products_page
  /\ exec (attempt_once 7 1) [null_products_page]
     = Some ([EvAcquire; EvGet 7 null_products_page; EvSay (LogError 7 TypeError 1);
              EvRelease; EvSleep RETRY_DELAY],
             Next, [])
  /\ exec (fetch_page 7) [null_products_page; null_products_page; null_products_page]
     = Some ([EvAcquire; EvGet 7 null_products_page; EvSay (LogError 7 TypeError 1);
              EvRelease; EvSleep RETRY_DELAY;
              EvAcquire; EvGet 7 null_products_page; EvSay (LogError 7 TypeError 2);
              EvRelease; EvSleep RETRY_DELAY;
              EvAcquire; EvGet 7 null_products_page; EvSay (LogError 7 TypeError 3);
              EvRelease; EvSay (LogGiveUp 7)],
             Ok [], []).
Proof.
  split; [reflexivity|]. split; [apply failed_null_products|].
  split; reflexivity.
Qed.

(** The output directory cannot be made: the run is aborted before any
    request, although the page-count step would have succeeded. *)
Lemma mkdir_failure_aborts_before_fetching :
  main read_only_disk (AbortedBeforeFetching OSError)
  /\ exit_status (AbortedBeforeFetching OSError) = 1
  /\ exec (main_start (mkdir_result read_only_disk)) [page_count_response read_only_disk]
     = Some ([], Raise OSError, [page_count_response read_only_disk])
  /\ exec get_total_pages [page_count_response read_only_disk]
     = Some ([EvGet 1 catalogue_size; EvSay (LogTotal (PInt 62633) (PInt 2610))],
             Ok (PInt 2610), []).
Proof.
  split; [|repeat split].
  apply (main_stops_early read_only_disk [] OSError [page_count_response read_only_disk]).
  reflexivity.
Qed.

(** Two pages; the first task holds a permit and its request is in flight. *)
Lemma permits_never_exceed_concurrency_witness :
  steps 2 (spawn 2) one_in_flight
  /\ held one_in_flight = 1
  /\ in_flight one_in_flight = 1
  /\ permits one_in_flight = 19
  /\ held one_in_flight <= CONCURRENCY.
Proof.
  assert (Hsteps : steps 2 (spawn 2) one_in_flight).
  { apply (run_schedule_steps 2 [(0%nat, NetFail ClientError)]). reflexivity. }
  pose proof (permits_never_exceed_concurrency 2 one_in_flight Hsteps) as (Hbound & _).
  split; [exact Hsteps|].
  split; [reflexivity|]. split; [reflexivity|]. split; [reflexivity|].
  exact (proj2 Hbound).
Defined.


(** ** Further runs *)

(** A page of a shirt and a number: the number cannot be transformed, so
    the response is a failed attempt. *)
Lemma page_is_all_or_nothing_witness :
  py_iter (dict_get spoiled_page "products" (PList [])) = Ok [shirt; PInt 3]
  /\ parse_product (PInt 3) = Raise AttributeError
  /\ failed (Resp 200 (Ok (PDict spoiled_page))).
Proof.
  assert (H : py_iter (dict_get spoiled_page "products" (PList [])) = Ok [shirt; PInt 3])
    by reflexivity.
  split; [exact H|]. split; [reflexivity|].
  destruct (page_is_all_or_nothing spoiled_page [shirt; PInt 3] H) as (_ & _ & Hfail).
  apply Hfail. exists (PInt 3), AttributeError.
  split; [right; left; reflexivity|reflexivity].
Defined.

(** A timeout, then a page of one shirt: two requests, and the rows of the
    page. *)
Lemma fetch_page_every_run_witness :
  exists tr got,
    exec (fetch_page 5) [NetFail TimeoutError; one_shirt_page] = Some (tr, Ok got, [])
    /\ succeeds one_shirt_page got
    /\ requests tr = 2%nat.
Proof.
  assert (H : exists tr got,
             exec (fetch_page 5) [NetFail TimeoutError; one_shirt_page]
             = Some (tr, Ok got, [])) by (vm_compute; eauto).
  destruct H as (tr & got & H). exists tr, got. split; [exact H|].
  destruct (fetch_page_every_run 5 _ tr (Ok got) [] H)
    as [(before & good & got' & Hnet & _ & _ & Hs & Hgot & Hreq & _)
       |(before & Hnet & Hlen & _)].
  - change [NetFail TimeoutError; one_shirt_page]
      with ([NetFail TimeoutError] ++ [one_shirt_page]) in Hnet.
    apply app_inj_tail in Hnet as [<- <-]. injection Hgot as <-.
    split; [exact Hs|exact Hreq].
  - exfalso. rewrite app_nil_r in Hnet. subst before. discriminate.
Defined.

(** The same run: between one and three requests, and two seconds of sleep
    for each request but the first. *)
Lemma fetch_page_bounds_witness :
  exists tr result rest,
    exec (fetch_page 5) [NetFail TimeoutError; one_shirt_page] = Some (tr, result, rest)
    /\ 1 <= Z.of_nat (requests tr) <= RETRY_LIMIT
    /\ slept tr = RETRY_DELAY * (Z.of_nat (requests tr) - 1).
Proof.
  assert (H : exists tr result rest,
             exec (fetch_page 5) [NetFail TimeoutError; one_shirt_page]
             = Some (tr, result, rest)) by (vm_compute; eauto).
  destruct H as (tr & result & rest & H). exists tr, result, rest.
  split; [exact H|].
  destruct (fetch_page_bounds 5 _ tr result rest H) as (Hreq & _ & Hslept & _).
  split; [exact Hreq|exact Hslept].
Defined.

(** The same run: as many lines as failed responses. *)
Lemma fetch_page_logs_witness :
  exists tr result rest before lines,
    exec (fetch_page 5) [NetFail TimeoutError; one_shirt_page] = Some (tr, result, rest)
    /\ Forall2 (fun numbered l => fails 5 (fst numbered) (snd numbered) l)
         (combine (py_range 1 (RETRY_LIMIT + 1)) before) lines
    /\ List.length lines = List.length before.
Proof.
  assert (H : exists tr result rest,
             exec (fetch_page 5) [NetFail TimeoutError; one_shirt_page]
             = Some (tr, result, rest)) by (vm_compute; eauto).
  destruct H as (tr & result & rest & H).
  destruct (fetch_page_logs 5 _ tr result rest H) as (before & lines & Hall & Hlen & _).
  exists tr, result, rest, before, lines. auto.
Defined.

(** A total of 62633.0: the run stops at [range]. *)
Lemma total_must_be_an_int_witness :
  as_num (PFloat 62633) = Some (NFloat 62633)
  /\ main float_shop (AbortedBeforeFetching TypeError).
Proof.
  split; [reflexivity|].
  assert (Hnum : forall z, as_num (PFloat 62633) <> Some (NInt z))
    by (intros z; discriminate).
  exact (proj1
           (total_must_be_an_int float_shop 200
              [("meta", PDict [("total", PFloat 62633)])] [("total", PFloat 62633)]
              (PFloat 62633) tt eq_refl eq_refl eq_refl eq_refl Hnum)).
Defined.

(** A total of zero: the run completes with no row. *)
Lemma empty_catalogue_writes_no_rows_witness :
  0 <= 0
  /\ lookup [("total", PInt 0)] "total" = Some (PInt 0)
  /\ main empty_shop (Completed []).
Proof.
  split; [lia|]. split; [reflexivity|].
  exact (proj1 (proj2 (proj2
           (empty_catalogue_writes_no_rows empty_shop 0 200
              [("meta", PDict [("total", PInt 0)])] [("total", PInt 0)] tt tt
              (Z.le_refl 0) eq_refl eq_refl eq_refl eq_refl eq_refl)))).
Defined.

(** One page of one shirt, fetched at the first attempt and taken by
    [main]. *)
Lemma shirt_gathered_steps : steps 1 (spawn 1) shirt_gathered.
Proof.
  apply (run_schedule_steps 1
           [(0%nat, one_shirt_page); (0%nat, one_shirt_page);
            (0%nat, one_shirt_page); (0%nat, one_shirt_page)]).
  reflexivity.
Qed.

Lemma shirt_shop_completes : main shirt_shop (Completed (rows shirt_gathered)).
Proof.
  exact (main_completes shirt_shop
           [EvGet 1 (catalogue_of (PInt 1)); EvSay (LogTotal (PInt 1) (PInt 1))]
           1 [] shirt_gathered eq_refl shirt_gathered_steps eq_refl eq_refl).
Qed.

(** The row written for the shirt has the keys of the header. *)
Lemma written_rows_fit_header_witness :
  main shirt_shop (Completed (rows shirt_gathered))
  /\ List.length (rows shirt_gathered) = 1%nat
  /\ Forall (fun r => map fst r = CSV_FIELDS /\ List.length r = List.length CSV_FIELDS)
       (rows shirt_gathered).
Proof.
  split; [exact shirt_shop_completes|]. split; [reflexivity|].
  exact (written_rows_fit_header shirt_shop (rows shirt_gathered) shirt_shop_completes).
Defined.

(** The rows of that run are the list of its one task. *)
Lemma rows_keep_each_page_together_witness :
  steps 1 (spawn 1) shirt_gathered
  /\ exists taken_order,
       rows shirt_gathered = List.concat (map task_rows taken_order)
       /\ Z.of_nat (List.length taken_order) = 1.
Proof.
  split; [exact shirt_gathered_steps|].
  destruct (rows_keep_each_page_together 1 shirt_gathered shirt_gathered_steps)
    as (order & _ & Hrows & Hlen & _).
  exists order. split; [exact Hrows|exact Hlen].
Defined.

(** Its last progress line: 1/1 pages, 1 product. *)
Lemma progress_is_reported_witness :
  steps 1 (spawn 1) shirt_gathered
  /\ finished shirt_gathered = true
  /\ exists earlier,
       progress_lines (out shirt_gathered) = earlier ++ [(1, 1, 1%nat)].
Proof.
  split; [exact shirt_gathered_steps|]. split; [reflexivity|].
  destruct (progress_is_reported 1 shirt_gathered shirt_gathered_steps) as (_ & _ & Hlast).
  apply Hlast; [reflexivity|lia].
Defined.

(** At its end all twenty permits are back. *)
Lemma permits_all_returned_witness :
  steps 1 (spawn 1) shirt_gathered
  /\ finished shirt_gathered = true
  /\ held shirt_gathered = 0
  /\ permits shirt_gathered = CONCURRENCY.
Proof.
  split; [exact shirt_gathered_steps|]. split; [reflexivity|].
  destruct (permits_all_returned 1 shirt_gathered shirt_gathered_steps) as (_ & Hend).
  exact (Hend eq_refl).
Defined.

(** Two pages, the first task inside its request: the second task finds a
    permit. *)
Lemma small_run_never_waits_witness :
  2 <= CONCURRENCY
  /\ steps 2 (spawn 2) one_in_flight
  /\ 18 <= permits one_in_flight
  /\ exists s', pool_step 2 1 (NetFail ClientError) one_in_flight = Some s'.
Proof.
  assert (Hn : 2 <= CONCURRENCY) by (unfold CONCURRENCY; lia).
  assert (Hsteps : steps 2 (spawn 2) one_in_flight).
  { apply (run_schedule_steps 2 [(0%nat, NetFail ClientError)]). reflexivity. }
  destruct (small_run_never_waits 2 one_in_flight Hn Hsteps) as (Hfree & Hgo).
  split; [exact Hn|]. split; [exact Hsteps|]. split; [exact Hfree|].
  exact (proj2 (Hgo 1%nat (mkTask 2 (fetch_page 2) 0 false)
                  (match fetch_page 2 with Acquire k => k | _ => fetch_page 2 end)
                  (NetFail ClientError) eq_refl eq_refl)).
Defined.
